(** * A minimal SMTP client and its toy server

    Shallow embedding of [src/smtp_utils.py] (the SMTP client that talks to a
    server), of the address validator of [src/smtp_client.py] (the simulated
    client) and of [src/smtp_server.py] (the fixed-response server), followed
    by the properties of the session engine.

    Conventions of the embedding.
    - Python [str] values are Stdlib strings; a character stands for the code
      point of the same number (U+0000 to U+00FF).  [bytes] values are lists
      of [byte].  [str.encode()] is UTF-8 on that range.
    - An exception is a value of [exn]; code that may raise returns a
      [result].  Code that also touches the connection or the local variables
      of [send_email] runs in the state monad [M].
    - The network is a [transport]: whether it accepts the connection, what
      it sends on accept, and how it reacts to each write. *)

From Stdlib Require Import ZArith Lia Bool List Ascii String.
From Stdlib.Strings Require Import Byte.
From stdpp Require Import base option list gmap strings pretty.

Local Open Scope string_scope.
Local Open Scope list_scope.

(** ** Python text and bytes *)

Module Py.

Definition bytes := list byte.

Definition chr (n : nat) : ascii := ascii_of_nat n.
Definition NUL : string := String (chr 0) EmptyString.
Definition CR : string := String (chr 13) EmptyString.
Definition LF : string := String (chr 10) EmptyString.
Definition CRLF : string := CR +:+ LF.
Definition DQUOTE : string := String (chr 34) EmptyString.
Definition BACKSLASH : string := String (chr 92) EmptyString.

Definition ord (c : ascii) : N := N_of_ascii c.

(** [lo <= c <= hi], on code points. *)
Definition between (lo hi c : ascii) : bool :=
  (ord lo <=? ord c)%N && (ord c <=? ord hi)%N.

(** The characters [str.strip()] removes (those of [str.isspace] below
    U+0100). *)
Definition isspace (c : ascii) : bool :=
  let n := ord c in
  ((9 <=? n) && (n <=? 13) || (28 <=? n) && (n <=? 32)
   || (n =? 133) || (n =? 160))%N.

Fixpoint lstrip (s : string) : string :=
  match s with
  | String c s' => if isspace c then lstrip s' else s
  | EmptyString => EmptyString
  end.

Fixpoint rstrip (s : string) : string :=
  match s with
  | String c s' =>
      match rstrip s' with
      | EmptyString => if isspace c then EmptyString else String c EmptyString
      | t => String c t
      end
  | EmptyString => EmptyString
  end.

Definition strip (s : string) : string := rstrip (lstrip s).

(** [s.startswith(p)] *)
Definition startswith (s p : string) : bool := String.prefix p s.

(** [p in s] for strings *)
Fixpoint contains (p s : string) : bool :=
  String.prefix p s ||
  match s with
  | String _ s' => contains p s'
  | EmptyString => false
  end.

(** [s[:1]] *)
Definition first1 (s : string) : string :=
  match s with
  | String c _ => String c EmptyString
  | EmptyString => EmptyString
  end.

(** [sep.join(l)] *)
Fixpoint join (sep : string) (l : list string) : string :=
  match l with
  | [] => EmptyString
  | [x] => x
  | x :: l' => x +:+ sep +:+ join sep l'
  end.

(** [all(p(c) for c in s)] *)
Fixpoint all (p : ascii -> bool) (s : string) : bool :=
  match s with
  | String c s' => p c && all p s'
  | EmptyString => true
  end.

Definition byte_of_N (n : N) : byte :=
  match Byte.of_N n with Some b => b | None => x00 end.

(** [b"..."]: a bytes literal of ASCII characters. *)
Definition b (s : string) : bytes := list_byte_of_string s.

(** [s.encode()]: UTF-8, one byte below U+0080 and two from there on. *)
Fixpoint encode (s : string) : bytes :=
  match s with
  | EmptyString => []
  | String c s' =>
      let n := ord c in
      if (n <? 128)%N then byte_of_N n :: encode s'
      else byte_of_N (192 + n / 64) :: byte_of_N (128 + n mod 64) :: encode s'
  end.

(** [data.decode()]: strict UTF-8.  [None] stands for [UnicodeDecodeError]
    and also for text with a code point from U+0100 on, which a [string]
    of this model cannot hold. *)
Fixpoint decode (data : bytes) : option string :=
  match data with
  | [] => Some EmptyString
  | x :: rest =>
      let n := Byte.to_N x in
      if (n <? 128)%N then String (ascii_of_N n) <$> decode rest
      else if ((n =? 194) || (n =? 195))%N then
        match rest with
        | y :: rest' =>
            let m := Byte.to_N y in
            if ((128 <=? m) && (m <? 192))%N
            then String (ascii_of_N ((n - 192) * 64 + (m - 128))) <$> decode rest'
            else None
        | [] => None
        end
      else None
  end.

(** *** base64.b64encode *)

Definition B64_ALPHABET : bytes :=
  b "ABCDEFGHIJKLMNOPQRSTUVWXYZabcdefghijklmnopqrstuvwxyz0123456789+/".

Definition b64_digit (n : N) : byte := nth (N.to_nat n) B64_ALPHABET x00.
Definition b64_pad : byte := byte_of_N 61.

Fixpoint b64encode_fuel (fuel : nat) (data : bytes) : bytes :=
  match fuel with
  | O => []
  | S fuel' =>
      match data with
      | [] => []
      | [x] =>
          let n := (Byte.to_N x * 65536)%N in
          [b64_digit (n / 262144); b64_digit ((n / 4096) mod 64); b64_pad; b64_pad]
      | [x; y] =>
          let n := (Byte.to_N x * 65536 + Byte.to_N y * 256)%N in
          [b64_digit (n / 262144); b64_digit ((n / 4096) mod 64);
           b64_digit ((n / 64) mod 64); b64_pad]
      | x :: y :: z :: rest =>
          let n := (Byte.to_N x * 65536 + Byte.to_N y * 256 + Byte.to_N z)%N in
          b64_digit (n / 262144) :: b64_digit ((n / 4096) mod 64)
          :: b64_digit ((n / 64) mod 64) :: b64_digit (n mod 64)
          :: b64encode_fuel fuel' rest
      end
  end.

Definition b64encode (data : bytes) : bytes :=
  b64encode_fuel (S (length data)) data.

(** The scalar values [json.loads] builds (numbers with a fraction left
    out): what an element of the recipients array can be. *)
Inductive pyval : Type :=
| PyNone
| PyBool (v : bool)
| PyInt (n : Z)
| PyStr (s : string).

(** Exceptions.  Every [builtin_error] is an [Exception] that is not an
    [SMTPClientError]. *)
Inductive builtin_error : Type :=
| ConnectionRefusedError
| ConnectionResetError
| TimeoutError
| UnicodeDecodeError
| TypeError.

Inductive exn : Type :=
| SMTPClientError (msg : string)
| Builtin (e : builtin_error).

Inductive result (A : Type) : Type :=
| Ok (a : A)
| Raise (e : exn).
Arguments Ok {A} a.
Arguments Raise {A} e.

(** The truth value of [v]: what [not v] negates. *)
Definition truthy (v : pyval) : bool :=
  match v with
  | PyNone => false
  | PyBool v' => v'
  | PyInt n => negb (n =? 0)%Z
  | PyStr s => negb (String.eqb s EmptyString)
  end.

End Py.

Import Py.

(** ** Regular expressions, as far as [EMAIL_REGEX] uses them *)

Module Re.

(** An item of a bracket expression: [a-z] or a single character. *)
Inductive item : Type :=
| Range (lo hi : ascii)
| One (c : ascii).

Definition in_item (c : ascii) (i : item) : bool :=
  match i with
  | Range lo hi => between lo hi c
  | One c' => Ascii.eqb c c'
  end.

Definition in_class (cls : list item) (c : ascii) : bool :=
  existsb (in_item c) cls.

Inductive regex : Type :=
| Void
| Eps
| Class (cls : list item)
| Cat (r1 r2 : regex)
| Alt (r1 r2 : regex)
| Star (r : regex).

(** [c] *)
Definition Lit (c : ascii) : regex := Class [One c].
(** [r+] *)
Definition Plus (r : regex) : regex := Cat r (Star r).
(** [r{n,}] *)
Fixpoint AtLeast (n : nat) (r : regex) : regex :=
  match n with
  | O => Star r
  | S n' => Cat r (AtLeast n' r)
  end.

Fixpoint nullable (r : regex) : bool :=
  match r with
  | Void => false
  | Eps => true
  | Class _ => false
  | Cat r1 r2 => nullable r1 && nullable r2
  | Alt r1 r2 => nullable r1 || nullable r2
  | Star _ => true
  end.

(** What is left of [r] after it has read [c]. *)
Fixpoint deriv (c : ascii) (r : regex) : regex :=
  match r with
  | Void => Void
  | Eps => Void
  | Class cls => if in_class cls c then Eps else Void
  | Cat r1 r2 =>
      if nullable r1 then Alt (Cat (deriv c r1) r2) (deriv c r2)
      else Cat (deriv c r1) r2
  | Alt r1 r2 => Alt (deriv c r1) (deriv c r2)
  | Star r1 => Cat (deriv c r1) (Star r1)
  end.

(** [r] matches the whole of [s]. *)
Fixpoint fullmatch (r : regex) (s : string) : bool :=
  match s with
  | EmptyString => nullable r
  | String c s' => fullmatch (deriv c r) s'
  end.

(** [Some s'] when [s] is [s'] followed by one newline. *)
Fixpoint before_final_newline (s : string) : option string :=
  match s with
  | EmptyString => None
  | String c EmptyString => if Ascii.eqb c (chr 10) then Some EmptyString else None
  | String c s' => String c <$> before_final_newline s'
  end.

(** [re.compile("^" r "$").match(s)] is not [None].  A match starts at
    position 0, where [^] holds; [$] holds at the end of the text and also
    just before a newline that ends it. *)
Definition match_anchored (r : regex) (s : string) : bool :=
  fullmatch r s ||
  match before_final_newline s with
  | Some s' => fullmatch r s'
  | None => false
  end.

(** The words of a regular expression. *)
Inductive Matches : regex -> string -> Prop :=
| MEps : Matches Eps EmptyString
| MClass cls c : in_class cls c = true -> Matches (Class cls) (String c EmptyString)
| MCat r1 r2 s1 s2 : Matches r1 s1 -> Matches r2 s2 -> Matches (Cat r1 r2) (s1 +:+ s2)
| MAltL r1 r2 s : Matches r1 s -> Matches (Alt r1 r2) s
| MAltR r1 r2 s : Matches r2 s -> Matches (Alt r1 r2) s
| MStarNil r : Matches (Star r) EmptyString
| MStarApp r s1 s2 : Matches r s1 -> Matches (Star r) s2 -> Matches (Star r) (s1 +:+ s2).

End Re.

Import Re.

(** ** The address pattern of the specification *)

Module Spec.

Definition local_char (c : ascii) : bool :=
  between "a" "z" c || between "A" "Z" c || between "0" "9" c
  || Ascii.eqb c "." || Ascii.eqb c "_" || Ascii.eqb c "%"
  || Ascii.eqb c "+" || Ascii.eqb c "-".

Definition domain_char (c : ascii) : bool :=
  between "a" "z" c || between "A" "Z" c || between "0" "9" c
  || Ascii.eqb c "." || Ascii.eqb c "-".

Definition letter (c : ascii) : bool :=
  between "a" "z" c || between "A" "Z" c.

(** [local-part@domain]: the local part is one or more of
    [[A-Za-z0-9._%+-]], the domain is one or more of [[A-Za-z0-9.-]]
    followed by a dot and a top-level label of at least two letters. *)
Definition address (s : string) : Prop :=
  exists l d t : string,
    s = l +:+ "@" +:+ d +:+ "." +:+ t
    /\ l <> EmptyString /\ Py.all local_char l = true
    /\ d <> EmptyString /\ Py.all domain_char d = true
    /\ 2 <= String.length t /\ Py.all letter t = true.

End Spec.

(** ** The connection and the effects of the client *)

Module Net.

(** What one [(await reader.read(1024)).decode()] gives: the decoded text,
    or an exception of the read or of the decoding.  A chunk is the result
    of one read, so the bytes of its text are at most 1024: a longer line
    of the peer comes as several chunks. *)
Inductive chunk : Type :=
| Text (s : string)
| Fault (e : builtin_error).

(** The peer.  [accepts]: [asyncio.open_connection] succeeds (it raises
    [ConnectionRefusedError] otherwise).  [greeting]: what the peer sends
    once connected.  [respond data]: what the peer sends back for one
    [writer.write(data)]; [None] when the connection is lost, which the
    next [drain] reports. *)
Record transport : Type := {
  accepts : bool;
  greeting : list chunk;
  respond : bytes -> option (list chunk)
}.

(** The calls made on the transport. *)
Inductive event : Type :=
| Connect (host : string) (port : Z)
| Write (data : bytes)
| Close.

(** The local variables [email_sent] and [error_type] of [send_email], and
    the connection: what is still to be read, the calls made so far, and
    whether a write was lost. *)
Record state : Type := {
  email_sent : bool;
  error_type : Z;
  inbox : list chunk;
  log : list event;
  broken : bool
}.

Definition start : state :=
  {| email_sent := false; error_type := 0; inbox := []; log := []; broken := false |}.

Definition M (A : Type) : Type := state -> result A * state.

Definition ret {A} (a : A) : M A := fun st => (Ok a, st).
Definition raise {A} (e : exn) : M A := fun st => (Raise e, st).
Definition bind {A B} (m : M A) (k : A -> M B) : M B :=
  fun st =>
    match m st with
    | (Ok a, st') => k a st'
    | (Raise e, st') => (Raise e, st')
    end.
Definition lift {A} (r : result A) : M A := fun st => (r, st).

(** [try: body / except ...: handler]: [handler e] is [None] when no clause
    catches [e]. *)
Definition try_except {A} (body : M A) (handler : exn -> option (M A)) : M A :=
  fun st =>
    match body st with
    | (Raise e, st') =>
        match handler e with
        | Some h => h st'
        | None => (Raise e, st')
        end
    | r => r
    end.

Definition set_email_sent (v : bool) : M unit :=
  fun st => (Ok tt, {| email_sent := v; error_type := error_type st;
                       inbox := inbox st; log := log st; broken := broken st |}).

Definition set_error_type (v : Z) : M unit :=
  fun st => (Ok tt, {| email_sent := email_sent st; error_type := v;
                       inbox := inbox st; log := log st; broken := broken st |}).

Definition get_email_sent : M bool := fun st => (Ok (email_sent st), st).
Definition get_error_type : M Z := fun st => (Ok (error_type st), st).

Section Transport.
Variable T : transport.

(** [reader, writer = await asyncio.open_connection(host, port)] *)
Definition open_connection (host : string) (port : Z) : M unit :=
  fun st =>
    let st' := {| email_sent := email_sent st; error_type := error_type st;
                  inbox := if accepts T then greeting T else inbox st;
                  log := log st ++ [Connect host port];
                  broken := broken st |} in
    if accepts T then (Ok tt, st')
    else (Raise (Builtin ConnectionRefusedError), st').

(** [writer.write(data)] *)
Definition writer_write (data : bytes) : M unit :=
  fun st =>
    (Ok tt,
     {| email_sent := email_sent st; error_type := error_type st;
        inbox := match respond T data with
                 | Some cs => inbox st ++ cs
                 | None => inbox st
                 end;
        log := log st ++ [Write data];
        broken := match respond T data with
                  | Some _ => broken st
                  | None => true
                  end |}).

(** [await writer.drain()] *)
Definition writer_drain : M unit :=
  fun st =>
    if broken st then (Raise (Builtin ConnectionResetError), st)
    else (Ok tt, st).

(** [(await reader.read(1024)).decode()]; at the end of the stream
    [read] gives [b""].  An inbox that is empty at a read is the end of the
    stream: the peer has closed the connection.  The code sets no timeout,
    so on a peer that stays connected and sends nothing the call waits and
    there is no result to describe; such a peer is no [transport]. *)
Definition reader_read_decode : M string :=
  fun st =>
    match inbox st with
    | [] => (Ok EmptyString, st)
    | c :: rest =>
        let st' := {| email_sent := email_sent st; error_type := error_type st;
                      inbox := rest; log := log st; broken := broken st |} in
        match c with
        | Text s => (Ok s, st')
        | Fault e => (Raise (Builtin e), st')
        end
    end.
End Transport.

End Net.

Import Net.

Declare Scope py_scope.
Delimit Scope py_scope with py.
Notation "x <- m ;; k" := (bind m (fun x => k))
  (at level 100, m at next level, right associativity) : py_scope.
Notation "m ;; k" := (bind m (fun _ => k))
  (at level 100, right associativity) : py_scope.
Local Open Scope py_scope.

(** ** [src/smtp_utils.py] *)

Module SmtpUtils.

Definition DEFAULT_SMTP_SERVER : string := "127.0.0.1".
Definition DEFAULT_SMTP_PORT : Z := 2525.

(** [^[a-zA-Z0-9._%+-]+@[a-zA-Z0-9.-]+\.[a-zA-Z]{2,}$], without its
    anchors. *)
Definition EMAIL_REGEX : regex :=
  Cat (Plus (Class [Range "a" "z"; Range "A" "Z"; Range "0" "9";
                    One "."; One "_"; One "%"; One "+"; One "-"]))
 (Cat (Lit "@")
 (Cat (Plus (Class [Range "a" "z"; Range "A" "Z"; Range "0" "9";
                    One "."; One "-"]))
 (Cat (Lit ".")
      (AtLeast 2 (Class [Range "a" "z"; Range "A" "Z"]))))).

(** [bool(EMAIL_REGEX.match(email))]; [match] raises [TypeError] on a value
    that is not a string. *)
Definition validate_email_address (email : pyval) : result bool :=
  match email with
  | PyStr s => Ok (match_anchored EMAIL_REGEX s)
  | _ => Raise (Builtin TypeError)
  end.

(** [decoded_response[:1] in {'2', '3'}] *)
Definition status_ok (decoded_response : string) : bool :=
  String.eqb (first1 decoded_response) "2" || String.eqb (first1 decoded_response) "3".

Section Session.
Variable T : transport.
(** What [formatdate(localtime=True)] returns at the time of the call. *)
Variable date : string.

Definition read_server_response : M string :=
  response_data <- reader_read_decode ;;
  let decoded_response := strip response_data in
  if negb (status_ok decoded_response)
  then raise (SMTPClientError ("Error del servidor: " +:+ decoded_response))
  else ret decoded_response.

(** The first loop of [send_email]: [Ok false] when it returns from the
    function at a recipient that does not validate, [Ok true] when it
    runs to its end. *)
Fixpoint recipients_validate (recipient_addresses : list string) : result bool :=
  match recipient_addresses with
  | [] => Ok true
  | recipient :: rest =>
      match validate_email_address (PyStr recipient) with
      | Ok true => recipients_validate rest
      | Ok false => Ok false
      | Raise e => Raise e
      end
  end.

(** [for header, value in custom_headers.items(): ...] *)
Definition header_lines (custom_headers : list (string * string)) : list string :=
  map (fun hv => fst hv +:+ ": " +:+ snd hv) custom_headers.

Definition email_content (sender_address : string) (recipient_addresses : list string)
    (email_subject email_body : string) (custom_headers : list (string * string)) : string :=
  let email_headers :=
    [ "From: " +:+ sender_address;
      "To: " +:+ join ", " recipient_addresses;
      "Subject: " +:+ email_subject;
      "Date: " +:+ date ] ++ header_lines custom_headers in
  join CRLF email_headers +:+ CRLF +:+ CRLF +:+ email_body.

(** The [except SMTPClientError as e:] clause of the [try] around
    [AUTH PLAIN]. *)
Definition on_auth_error (e : exn) : option (M unit) :=
  match e with
  | SMTPClientError msg =>
      Some (if contains "502" msg then ret tt else raise e)
  | Builtin _ => None
  end.

(** The [try: ... except SMTPClientError as e:] around [AUTH PLAIN]. *)
Definition authenticate (sender_address sender_password : string) : M unit :=
  try_except
    (writer_write T (b ("AUTH PLAIN" +:+ CRLF)) ;;
     writer_drain ;;
     auth_response <- read_server_response ;;
     if startswith auth_response "334" then
       let auth_credentials := encode (NUL +:+ sender_address +:+ NUL +:+ sender_password) in
       let auth_b64 := b64encode auth_credentials in
       writer_write T (auth_b64 ++ b CRLF) ;;
       writer_drain ;;
       _ <- read_server_response ;;
       ret tt
     else ret tt)
    on_auth_error.

(** [try: await read_server_response(reader) / except SMTPClientError:
    error_type = tag; raise] *)
Definition read_tagged (tag : Z) : M unit :=
  try_except
    (_ <- read_server_response ;; ret tt)
    (fun e =>
       match e with
       | SMTPClientError _ => Some (set_error_type tag ;; raise e)
       | Builtin _ => None
       end).

(** The second loop of [send_email]. *)
Fixpoint rcpt_loop (recipient_addresses : list string) : M unit :=
  match recipient_addresses with
  | [] => ret tt
  | recipient :: rest =>
      writer_write T (encode ("RCPT TO:" +:+ recipient +:+ CRLF)) ;;
      writer_drain ;;
      read_tagged 2 ;;
      rcpt_loop rest
  end.

(** The body of the outer [try], in the order of the source: the
    greeting and [EHLO]; [AUTH PLAIN]; [MAIL FROM]; [RCPT TO] for each
    recipient; [DATA], the content and [QUIT]. *)
Definition ehlo : M unit :=
  _ <- read_server_response ;;
  writer_write T (b ("EHLO localhost" +:+ CRLF)) ;;
  writer_drain ;;
  _ <- read_server_response ;;
  ret tt.

Definition mail_from (sender_address : string) : M unit :=
  writer_write T (encode ("MAIL FROM:" +:+ sender_address +:+ CRLF)) ;;
  writer_drain ;;
  read_tagged 1.

Definition send_data (content : string) : M unit :=
  writer_write T (b ("DATA" +:+ CRLF)) ;;
  writer_drain ;;
  _ <- read_server_response ;;
  writer_write T (encode content ++ b (CRLF +:+ "." +:+ CRLF)) ;;
  writer_drain ;;
  _ <- read_server_response ;;
  writer_write T (b ("QUIT" +:+ CRLF)) ;;
  writer_drain ;;
  _ <- read_server_response ;;
  ret tt.

Definition session (sender_address sender_password : string)
    (recipient_addresses : list string) (content : string)
    (smtp_server : string) (smtp_port : Z) : M unit :=
  open_connection T smtp_server smtp_port ;;
  ehlo ;;
  authenticate sender_address sender_password ;;
  mail_from sender_address ;;
  rcpt_loop recipient_addresses ;;
  send_data content ;;
  set_email_sent true.

(** The two [except] clauses of the outer [try]. *)
Definition on_error (e : exn) : option (M unit) :=
  match e with
  | SMTPClientError msg =>
      Some (error_type <- get_error_type ;;
            if (error_type =? 0)%Z then
              if contains "501" msg then set_error_type 1
              else if contains "550" msg then set_error_type 2
              else ret tt
            else ret tt)
  | Builtin _ => Some (set_error_type 3)
  end.

Definition send_email (sender_address sender_password : string)
    (recipient_addresses : list string) (email_subject email_body : string)
    (custom_headers : list (string * string))
    (smtp_server : string) (smtp_port : Z) : M (bool * Z) :=
  set_email_sent false ;;
  set_error_type 0 ;;
  sender_ok <- lift (validate_email_address (PyStr sender_address)) ;;
  if negb sender_ok then
    email_sent <- get_email_sent ;; ret (email_sent, 1%Z)
  else
    recipients_ok <- lift (recipients_validate recipient_addresses) ;;
    if negb recipients_ok then
      email_sent <- get_email_sent ;; ret (email_sent, 2%Z)
    else
      let content := email_content sender_address recipient_addresses
                       email_subject email_body custom_headers in
      try_except
        (session sender_address sender_password recipient_addresses content
           smtp_server smtp_port)
        on_error ;;
      email_sent <- get_email_sent ;;
      error_type <- get_error_type ;;
      ret (email_sent, error_type).
End Session.

(** [main]: the tables and the answer built from the result of
    [send_email]. *)
Definition error_messages : gmap Z string :=
  <[0%Z := "Error desconocido del servidor"]>
  (<[1%Z := "Invalid sender address"]>
  (<[2%Z := "Invalid recipient address"]>
  (<[3%Z := "Error de protocolo SMTP"]> ∅))).

Definition status_codes : gmap Z Z :=
  <[0%Z := 550%Z]> (<[1%Z := 501%Z]> (<[2%Z := 550%Z]> (<[3%Z := 503%Z]> ∅))).

(** The pair ([status_code], [message]) of [output]. *)
Definition output (result : bool) (error_type : Z) : Z * string :=
  if result then (250%Z, "Message accepted for delivery")
  else (default 550%Z (status_codes !! error_type),
        default "Unknown error" (error_messages !! error_type)).

End SmtpUtils.

(** ** [src/smtp_client.py] *)

Module SmtpClient.

Definition EMAIL_REGEX : regex := SmtpUtils.EMAIL_REGEX.

(** [isinstance(email, str) and bool(EMAIL_REGEX.match(email))] *)
Definition validate_email_address (email : pyval) : result bool :=
  match email with
  | PyStr s => Ok (match_anchored EMAIL_REGEX s)
  | _ => Ok false
  end.

(** The loop of [send_email]: [Ok false] when it returns from the function
    at a recipient that is empty or does not validate, [Ok true] when it
    runs to its end. *)
Fixpoint recipients_validate (recipient_addresses : list pyval) : result bool :=
  match recipient_addresses with
  | [] => Ok true
  | recipient :: rest =>
      if negb (truthy recipient) then Ok false
      else
        match validate_email_address recipient with
        | Ok true => recipients_validate rest
        | Ok false => Ok false
        | Raise e => Raise e
        end
  end.

(** [send_email] of the simulated client: the addresses are checked and no
    connection is made. *)
Definition send_email (sender_address sender_password : pyval)
    (recipient_addresses : list pyval) (email_subject email_body : string)
    (custom_headers : list (string * string))
    (smtp_server : string) (smtp_port : Z) : result (bool * Z) :=
  if negb (truthy sender_address) then Ok (false, 1%Z)
  else
    match validate_email_address sender_address with
    | Raise e => Raise e
    | Ok false => Ok (false, 1%Z)
    | Ok true =>
        match recipients_validate recipient_addresses with
        | Raise e => Raise e
        | Ok false => Ok (false, 2%Z)
        | Ok true => Ok (true, 0%Z)
        end
    end.

(** [main]: the tables and the answer built from the result of
    [send_email]. *)
Definition error_messages : gmap Z string :=
  <[0%Z := "Unknown server error."]>
  (<[1%Z := "Invalid sender address"]>
  (<[2%Z := "Invalid recipient address"]>
  (<[3%Z := "SMTP error."]> ∅))).

Definition status_codes : gmap Z Z :=
  <[0%Z := 550%Z]> (<[1%Z := 501%Z]> (<[2%Z := 550%Z]> (<[3%Z := 503%Z]> ∅))).

Definition output (result : bool) (error_type : Z) : Z * string :=
  if result then (250%Z, "Message accepted for delivery")
  else (default 550%Z (status_codes !! error_type),
        default "Unknown error" (error_messages !! error_type)).

End SmtpClient.

(** ** [src/smtp_server.py] *)

Module SmtpServer.

(** The values of the [response] dictionary. *)
Inductive json : Type :=
| JInt (n : Z)
| JStr (s : string).

(** [d[key] = value] on a dictionary kept in insertion order. *)
Fixpoint dict_set (d : list (string * json)) (key : string) (value : json)
    : list (string * json) :=
  match d with
  | [] => [(key, value)]
  | (k, v) :: d' =>
      if String.eqb k key then (k, value) :: d'
      else (k, v) :: dict_set d' key value
  end.

Definition hex_digit (n : N) : string :=
  String.substring (N.to_nat n) 1 "0123456789abcdef".

(** One character of a string as [json.dumps] writes it (with
    [ensure_ascii]). *)
Definition json_char (c : ascii) : string :=
  let n := ord c in
  if (n =? 34)%N then BACKSLASH +:+ DQUOTE
  else if (n =? 92)%N then BACKSLASH +:+ BACKSLASH
  else if (n =? 10)%N then BACKSLASH +:+ "n"
  else if (n =? 13)%N then BACKSLASH +:+ "r"
  else if (n =? 9)%N then BACKSLASH +:+ "t"
  else if (n =? 8)%N then BACKSLASH +:+ "b"
  else if (n =? 12)%N then BACKSLASH +:+ "f"
  else if ((n <? 32) || (126 <? n))%N
  then BACKSLASH +:+ "u00" +:+ hex_digit (n / 16) +:+ hex_digit (n mod 16)
  else String c EmptyString.

Fixpoint json_chars (s : string) : string :=
  match s with
  | EmptyString => EmptyString
  | String c s' => json_char c +:+ json_chars s'
  end.

Definition json_string (s : string) : string := DQUOTE +:+ json_chars s +:+ DQUOTE.

Definition json_value (v : json) : string :=
  match v with
  | JInt n => pretty n
  | JStr s => json_string s
  end.

(** [json.dumps(d)] for a dictionary of numbers and strings. *)
Definition json_dumps (d : list (string * json)) : string :=
  "{" +:+ join ", " (map (fun kv => json_string (fst kv) +:+ ": " +:+ json_value (snd kv)) d)
  +:+ "}".

(** The body of the loop of [handle_client], for a [data] that is not
    empty: the bytes sent back. *)
Definition handle_command (data : string) : bytes :=
  let response := [("status_code", JInt 250); ("message", JStr "Message accepted for delivery")] in
  let response :=
    if startswith data "HELO" || startswith data "EHLO"
    then dict_set response "message" (JStr "Hello")
    else if startswith data "MAIL FROM"
    then dict_set response "message" (JStr "Sender OK")
    else if startswith data "RCPT TO"
    then dict_set response "message" (JStr "Recipient OK")
    else if startswith data "DATA"
    then dict_set response "message" (JStr "Ready for data")
    else if startswith data "QUIT"
    then dict_set response "message" (JStr "Goodbye")
    else [("status_code", JInt 502); ("message", JStr "Command not implemented")] in
  encode (json_dumps response) ++ b CRLF.

(** What the client reads of bytes the server sent. *)
Definition received (data : bytes) : chunk :=
  match decode data with
  | Some s => Text s
  | None => Fault UnicodeDecodeError
  end.

(** [handle_client] as the peer of a connection: the greeting, then one
    answer for each piece of data received.  When [data] does not decode
    the loop ends with an exception and nothing is sent. *)
Definition handle_client : transport :=
  {| accepts := true;
     greeting := [received (b ("220 Welcome to Simple SMTP Server" +:+ CRLF))];
     respond := fun raw =>
       match decode raw with
       | Some data =>
           if String.eqb data EmptyString then Some []
           else Some [received (handle_command data)]
       | None => Some []
       end |}.

End SmtpServer.

(** ** Notions used in the statements *)

(** [address] passes the validator of [smtp_utils.py]. *)
Definition valid (address : string) : Prop :=
  SmtpUtils.validate_email_address (PyStr address) = Ok true.

(** A peer that accepts the connection and answers every write with
    [250 OK]. *)
Definition accept_all : transport :=
  {| accepts := true;
     greeting := [Text "220 ready"];
     respond := fun _ => Some [Text "250 OK"] |}.

Definition is_write (e : event) : Prop :=
  match e with
  | Write _ => True
  | _ => False
  end.

(** The exceptions the session can raise: an [SMTPClientError] made by
    [read_server_response], or an exception of the transport. *)
Definition protocol_error (e : exn) : Prop :=
  match e with
  | SMTPClientError msg => exists text, msg = "Error del servidor: " +:+ text
  | Builtin _ => True
  end.

(** [st'] comes after [st]: the log has grown by events in [P], and
    [email_sent] is as it was. *)
Definition extends (P : event -> Prop) (st st' : state) : Prop :=
  (exists evs, log st' = log st ++ evs /\ Forall P evs)
  /\ email_sent st' = email_sent st.

(** [m] only adds events in [P] to the log, leaves [email_sent] alone, and
    raises nothing but protocol and transport errors. *)
Definition tame {A} (P : event -> Prop) (m : M A) : Prop :=
  forall st,
    extends P st (snd (m st))
    /\ (forall e, fst (m st) = Raise e -> protocol_error e).

(** Like [tame], for a computation that ends by setting [email_sent]. *)
Definition ends_sent {A} (P : event -> Prop) (m : M A) : Prop :=
  forall st,
    (exists evs, log (snd (m st)) = log st ++ evs /\ Forall P evs)
    /\ match fst (m st) with
       | Ok _ => email_sent (snd (m st)) = true
       | Raise e => protocol_error e /\ email_sent (snd (m st)) = email_sent st
       end.

(** [m] leaves [error_type] as it was, or sets it to 1 or to 2. *)
Definition tagging {A} (m : M A) : Prop :=
  forall st,
    error_type (snd (m st)) = error_type st
    \/ error_type (snd (m st)) = 1%Z
    \/ error_type (snd (m st)) = 2%Z.

(** A peer that accepts the connection, greets, and answers the command
    line [cmd] with the line [answer cmd]. *)
Definition answering (answer : string -> string) : transport :=
  {| accepts := true;
     greeting := [Text ("220 ready" +:+ CRLF)];
     respond := fun data =>
       match decode data with
       | Some cmd => Some [Text (answer cmd +:+ CRLF)]
       | None => None
       end |}.

Definition reject_rcpt : transport :=
  answering (fun cmd =>
    if startswith cmd "RCPT TO" then "550 Recipient rejected" else "250 OK").

Definition reject_data : transport :=
  answering (fun cmd => if startswith cmd "DATA" then "550 no" else "250 OK").

(** A peer that accepts the connection and resets it before greeting. *)
Definition resets : transport :=
  {| accepts := true;
     greeting := [Fault ConnectionResetError];
     respond := fun _ => None |}.

(** A peer that refuses the connection. *)
Definition refuses : transport :=
  {| accepts := false; greeting := []; respond := fun _ => None |}.

Definition asks_credential : transport :=
  answering (fun cmd => if startswith cmd "AUTH" then "334 " else "250 OK").

Definition reject_second : transport :=
  answering (fun cmd =>
    if startswith cmd "RCPT TO:e@f.com" then "550 No such user" else "250 OK").

(** The [RCPT TO] command for one recipient, as written to the transport. *)
Definition rcpt_command (recipient : string) : event :=
  Write (encode ("RCPT TO:" +:+ recipient +:+ CRLF)).

(** The line [s] comes in one [reader.read(1024)]: its bytes are at most
    1024. *)
Definition one_read (s : string) : Prop := (length (encode s) <= 1024)%nat.

(** A peer that greets with the line [g] and answers the write of [data]
    with the line [reply data]. *)
Definition replying (g : string) (reply : bytes -> string) : transport :=
  {| accepts := true;
     greeting := [Text g];
     respond := fun data => Some [Text (reply data)] |}.

(** [502] for [AUTH PLAIN], [250] for every other write. *)
Definition auth_unsupported_reply (data : bytes) : string :=
  if String.eqb (string_of_list_byte data) ("AUTH PLAIN" +:+ CRLF)
  then "502 Command not implemented" +:+ CRLF
  else "250 OK" +:+ CRLF.

Definition some_date : string := "Tue, 03 Nov 2026 10:00:00 -0000".

(** ** Notions used in the further properties *)

(** How often the character [c] occurs in [s]. *)
Fixpoint count_char (c : ascii) (s : string) : nat :=
  match s with
  | EmptyString => 0
  | String c' s' => (if Ascii.eqb c' c then 1 else 0) + count_char c s'
  end.

(** A character an accepted address is made of. *)
Definition address_char (c : ascii) : bool :=
  Spec.local_char c || Ascii.eqb c "@".

(** [v] is a string that the validators accept. *)
Definition accepted (v : pyval) : bool :=
  match v with
  | PyStr s => match_anchored SmtpUtils.EMAIL_REGEX s
  | _ => false
  end.

(** The lines [ls], each followed by CRLF. *)
Fixpoint terminated_lines (ls : list string) : string :=
  match ls with
  | [] => EmptyString
  | l :: ls' => l +:+ CRLF +:+ terminated_lines ls'
  end.

(** The credential line of [AUTH PLAIN]. *)
Definition credential_line (sender_address sender_password : string) : bytes :=
  b64encode (encode (NUL +:+ sender_address +:+ NUL +:+ sender_password)) ++ b CRLF.

(** The calls of a complete session, in order, with or without the
    credential line. *)
Definition command_script (with_credential : bool)
    (sender_address sender_password : string) (recipient_addresses : list string)
    (content : string) (smtp_server : string) (smtp_port : Z) : list event :=
  [Connect smtp_server smtp_port;
   Write (b ("EHLO localhost" +:+ CRLF));
   Write (b ("AUTH PLAIN" +:+ CRLF))]
  ++ (if with_credential
      then [Write (credential_line sender_address sender_password)]
      else [])
  ++ [Write (encode ("MAIL FROM:" +:+ sender_address +:+ CRLF))]
  ++ map rcpt_command recipient_addresses
  ++ [Write (b ("DATA" +:+ CRLF));
      Write (encode content ++ b (CRLF +:+ "." +:+ CRLF));
      Write (b ("QUIT" +:+ CRLF))].

(** [m] adds to the log a beginning of one of the lists in [F], and the
    whole list when it returns normally. *)
Definition writes {A} (F : list event -> Prop) (m : M A) : Prop :=
  forall st,
    exists ws pre,
      F ws /\ pre `prefix_of` ws
      /\ log (snd (m st)) = log st ++ pre
      /\ (forall a, fst (m st) = Ok a -> pre = ws).

(** [m] adds to the log one of the lists in [F]. *)
Definition logs {A} (F : list event -> Prop) (m : M A) : Prop :=
  forall st, exists ws, F ws /\ log (snd (m st)) = log st ++ ws.

(** [m] leaves [error_type] as it was. *)
Definition keeps_type {A} (m : M A) : Prop :=
  forall st, error_type (snd (m st)) = error_type st.

(** [m] leaves [error_type] as it was when it returns normally. *)
Definition keeps_type_ok {A} (m : M A) : Prop :=
  forall st a st', m st = (Ok a, st') -> error_type st' = error_type st.

(** [535] for [AUTH PLAIN], [250] for every other write. *)
Definition auth_rejected_reply (data : bytes) : string :=
  if String.eqb (string_of_list_byte data) ("AUTH PLAIN" +:+ CRLF)
  then "535 Authentication failed" +:+ CRLF
  else "250 OK" +:+ CRLF.

(** [334] for [AUTH PLAIN], [250] for every other write. *)
Definition auth_accepting_reply (data : bytes) : string :=
  if String.eqb (string_of_list_byte data) ("AUTH PLAIN" +:+ CRLF)
  then "334 " +:+ CRLF
  else "250 OK" +:+ CRLF.

(** A peer that accepts the connection and closes it at once. *)
Definition hangs_up : transport :=
  {| accepts := true; greeting := []; respond := fun _ => Some [] |}.

(** * Properties *)

(** ** Strings *)

Lemma sapp_nil_l (s : string) : EmptyString +:+ s = s.
Proof. reflexivity. Qed.

Lemma sapp_cons (c : ascii) (s t : string) : String c s +:+ t = String c (s +:+ t).
Proof. reflexivity. Qed.

Lemma sapp_nil_r (s : string) : s +:+ EmptyString = s.
Proof. induction s as [|c s IH]; [reflexivity | now rewrite sapp_cons, IH]. Qed.

Lemma sapp_assoc (s t u : string) : (s +:+ t) +:+ u = s +:+ (t +:+ u).
Proof. induction s as [|c s IH]; [reflexivity | now rewrite !sapp_cons, IH]. Qed.

Lemma sapp_length (s t : string) :
  String.length (s +:+ t) = String.length s + String.length t.
Proof. induction s as [|c s IH]; [reflexivity | rewrite sapp_cons; simpl; now rewrite IH]. Qed.

Lemma sapp_eq_nil (s t : string) :
  s +:+ t = EmptyString -> s = EmptyString /\ t = EmptyString.
Proof. destruct s; [rewrite sapp_nil_l; auto | rewrite sapp_cons; discriminate]. Qed.

Lemma all_ext (p q : ascii -> bool) (s : string) :
  (forall c, p c = q c) -> Py.all p s = Py.all q s.
Proof. intros E. induction s as [|c s IH]; simpl; [reflexivity | now rewrite E, IH]. Qed.

Lemma all_app (p : ascii -> bool) (s t : string) :
  Py.all p (s +:+ t) = Py.all p s && Py.all p t.
Proof.
  induction s as [|c s IH]; [reflexivity |].
  rewrite sapp_cons. simpl. now rewrite IH, andb_assoc.
Qed.

(** ** The matcher decides the words of a regular expression *)

Lemma nullable_Matches (r : regex) : nullable r = true <-> Matches r EmptyString.
Proof.
  split.
  - induction r as [| |cls|r1 IH1 r2 IH2|r1 IH1 r2 IH2|r IH]; simpl; intros H.
    + discriminate.
    + constructor.
    + discriminate.
    + apply andb_true_iff in H as [H1 H2].
      rewrite <- (sapp_nil_l EmptyString).
      constructor; auto.
    + apply orb_true_iff in H as [H|H]; [apply MAltL | apply MAltR]; auto.
    + constructor.
  - intros H. remember EmptyString as s eqn:Es.
    induction H as [|cls c Hc|r1 r2 s1 s2 H1 IH1 H2 IH2|r1 r2 s H IH|r1 r2 s H IH
                   |r|r s1 s2 H1 IH1 H2 IH2]; simpl; try reflexivity.
    + discriminate.
    + apply sapp_eq_nil in Es as [-> ->]. now rewrite IH1, IH2.
    + now rewrite IH.
    + rewrite IH by assumption. apply orb_true_r.
Qed.

Lemma deriv_sound (c : ascii) (r : regex) :
  forall s, Matches (deriv c r) s -> Matches r (String c s).
Proof.
  induction r as [| |cls|r1 IH1 r2 IH2|r1 IH1 r2 IH2|r IH]; simpl; intros s H.
  - inversion H.
  - inversion H.
  - destruct (in_class cls c) eqn:E; inversion H; subst. now constructor.
  - destruct (nullable r1) eqn:N.
    + inversion H as [| | | ? ? ? HL | ? ? ? HR | |]; subst.
      * inversion HL as [| |? ? s1 s2 Ha Hb| | | |]; subst.
        rewrite <- sapp_cons. constructor; auto.
      * rewrite <- (sapp_nil_l (String c s)).
        constructor; [now apply nullable_Matches | auto].
    + inversion H as [| |? ? s1 s2 Ha Hb| | | |]; subst.
      rewrite <- sapp_cons. constructor; auto.
  - inversion H; subst; [apply MAltL | apply MAltR]; auto.
  - inversion H as [| |? ? s1 s2 Ha Hb| | | |]; subst.
    rewrite <- sapp_cons. constructor; auto.
Qed.

Lemma deriv_complete (c : ascii) (r : regex) (w : string) :
  Matches r w -> forall s, w = String c s -> Matches (deriv c r) s.
Proof.
  induction 1 as [|cls c' Hc|r1 r2 s1 s2 H1 IH1 H2 IH2|r1 r2 w H IH|r1 r2 w H IH
                 |r|r s1 s2 H1 IH1 H2 IH2]; intros s E; simpl.
  - discriminate.
  - injection E as -> <-. rewrite Hc. constructor.
  - destruct s1 as [|c1 s1].
    + rewrite sapp_nil_l in E.
      apply nullable_Matches in H1 as ->.
      apply MAltR. auto.
    + rewrite sapp_cons in E. injection E as -> <-.
      destruct (nullable r1); [apply MAltL |]; constructor; auto.
  - apply MAltL; auto.
  - apply MAltR; auto.
  - discriminate.
  - destruct s1 as [|c1 s1].
    + rewrite sapp_nil_l in E. apply (IH2 s E).
    + rewrite sapp_cons in E. injection E as -> <-. constructor; auto.
Qed.

Lemma fullmatch_Matches (r : regex) (s : string) :
  fullmatch r s = true <-> Matches r s.
Proof.
  revert r. induction s as [|c s IH]; intros r; simpl.
  - apply nullable_Matches.
  - rewrite IH. split.
    + apply deriv_sound.
    + intros H. now apply (deriv_complete c r (String c s)).
Qed.

(** ** The words of [EMAIL_REGEX] *)

Lemma Matches_Class (cls : list item) (s : string) :
  Matches (Class cls) s <-> exists c, s = String c EmptyString /\ in_class cls c = true.
Proof.
  split.
  - inversion 1; subst; eauto.
  - intros (c & -> & H). now constructor.
Qed.

Lemma Matches_Lit (c : ascii) (s : string) :
  Matches (Lit c) s <-> s = String c EmptyString.
Proof.
  unfold Lit. rewrite Matches_Class. split.
  - intros (c' & -> & H). simpl in H. rewrite orb_false_r in H.
    apply Ascii.eqb_eq in H. now subst.
  - intros ->. exists c. split; [reflexivity |]. simpl. now rewrite Ascii.eqb_refl.
Qed.

Lemma Matches_Cat (r1 r2 : regex) (s : string) :
  Matches (Cat r1 r2) s <->
  exists s1 s2, s = s1 +:+ s2 /\ Matches r1 s1 /\ Matches r2 s2.
Proof.
  split.
  - inversion 1; subst; eauto.
  - intros (s1 & s2 & -> & H1 & H2). now constructor.
Qed.

Lemma Matches_Star_Class (cls : list item) (s : string) :
  Matches (Star (Class cls)) s <-> Py.all (in_class cls) s = true.
Proof.
  split.
  - intros H. remember (Star (Class cls)) as r eqn:Er.
    induction H as [| | | | | r|r s1 s2 H1 _ H2 IH2]; try discriminate.
    + reflexivity.
    + injection Er as ->.
      apply Matches_Class in H1 as (c & -> & Hc).
      rewrite sapp_cons, sapp_nil_l. simpl. rewrite Hc. now apply IH2.
  - induction s as [|c s IH]; simpl; intros H.
    + constructor.
    + apply andb_true_iff in H as [Hc Hs].
      rewrite <- (sapp_nil_l s), <- sapp_cons.
      constructor; [now constructor | auto].
Qed.

Lemma Matches_Plus_Class (cls : list item) (s : string) :
  Matches (Plus (Class cls)) s <-> s <> EmptyString /\ Py.all (in_class cls) s = true.
Proof.
  unfold Plus. rewrite Matches_Cat. split.
  - intros (s1 & s2 & -> & H1 & H2).
    apply Matches_Class in H1 as (c & -> & Hc).
    apply Matches_Star_Class in H2.
    rewrite sapp_cons, sapp_nil_l. simpl. rewrite Hc, H2. split; [discriminate | reflexivity].
  - intros [Hne Hall]. destruct s as [|c s]; [contradiction |].
    simpl in Hall. apply andb_true_iff in Hall as [Hc Hs].
    exists (String c EmptyString), s. repeat split.
    + now constructor.
    + now apply Matches_Star_Class.
Qed.

Lemma Matches_AtLeast_Class (n : nat) (cls : list item) (s : string) :
  Matches (AtLeast n (Class cls)) s <->
  n <= String.length s /\ Py.all (in_class cls) s = true.
Proof.
  revert s. induction n as [|n IH]; intros s; simpl.
  - rewrite Matches_Star_Class. split; [intros H; split; [lia | exact H] | tauto].
  - rewrite Matches_Cat. split.
    + intros (s1 & s2 & -> & H1 & H2).
      apply Matches_Class in H1 as (c & -> & Hc).
      apply IH in H2 as [Hn Hs].
      rewrite sapp_cons, sapp_nil_l. simpl. rewrite Hc, Hs. split; [lia | reflexivity].
    + intros [Hn Hall]. destruct s as [|c s]; simpl in Hn; [lia |].
      simpl in Hall. apply andb_true_iff in Hall as [Hc Hs].
      exists (String c EmptyString), s. repeat split.
      * now constructor.
      * apply IH. split; [lia | exact Hs].
Qed.

Lemma local_class (c : ascii) :
  in_class [Range "a" "z"; Range "A" "Z"; Range "0" "9";
            One "."; One "_"; One "%"; One "+"; One "-"] c = Spec.local_char c.
Proof.
  unfold in_class, Spec.local_char. simpl.
  now rewrite orb_false_r, !orb_assoc.
Qed.

Lemma domain_class (c : ascii) :
  in_class [Range "a" "z"; Range "A" "Z"; Range "0" "9"; One "."; One "-"] c
  = Spec.domain_char c.
Proof.
  unfold in_class, Spec.domain_char. simpl.
  now rewrite orb_false_r, !orb_assoc.
Qed.

Lemma letter_class (c : ascii) :
  in_class [Range "a" "z"; Range "A" "Z"] c = Spec.letter c.
Proof.
  unfold in_class, Spec.letter. simpl.
  now rewrite orb_false_r.
Qed.

(** The pattern of [EMAIL_REGEX], anchors apart, is the address pattern of
    the specification. *)
Lemma EMAIL_REGEX_address (s : string) :
  fullmatch SmtpUtils.EMAIL_REGEX s = true <-> Spec.address s.
Proof.
  rewrite fullmatch_Matches. unfold SmtpUtils.EMAIL_REGEX, Spec.address.
  rewrite Matches_Cat. split.
  - intros (l & s1 & -> & Hl & H1).
    apply Matches_Cat in H1 as (at_ & s2 & -> & Hat & H2).
    apply Matches_Cat in H2 as (d & s3 & -> & Hd & H3).
    apply Matches_Cat in H3 as (dot & t & -> & Hdot & Ht).
    apply Matches_Lit in Hat as ->. apply Matches_Lit in Hdot as ->.
    apply Matches_Plus_Class in Hl as [Hl1 Hl2].
    apply Matches_Plus_Class in Hd as [Hd1 Hd2].
    apply Matches_AtLeast_Class in Ht as [Ht1 Ht2].
    exists l, d, t.
    rewrite (all_ext _ _ l local_class) in Hl2.
    rewrite (all_ext _ _ d domain_class) in Hd2.
    rewrite (all_ext _ _ t letter_class) in Ht2.
    repeat split; assumption.
  - intros (l & d & t & -> & Hl1 & Hl2 & Hd1 & Hd2 & Ht1 & Ht2).
    rewrite <- (all_ext _ _ l local_class) in Hl2.
    rewrite <- (all_ext _ _ d domain_class) in Hd2.
    rewrite <- (all_ext _ _ t letter_class) in Ht2.
    exists l, ("@" +:+ d +:+ "." +:+ t). split; [reflexivity |]. split.
    { now apply Matches_Plus_Class. }
    apply Matches_Cat. exists "@", (d +:+ "." +:+ t). split; [reflexivity |]. split.
    { now apply Matches_Lit. }
    apply Matches_Cat. exists d, ("." +:+ t). split; [reflexivity |]. split.
    { now apply Matches_Plus_Class. }
    apply Matches_Cat. exists ".", t. split; [reflexivity |]. split.
    { now apply Matches_Lit. }
    now apply Matches_AtLeast_Class.
Qed.

Lemma before_final_newline_spec (s s' : string) :
  before_final_newline s = Some s' <-> s = s' +:+ LF.
Proof.
  revert s'. induction s as [|c s IH]; intros s'; simpl.
  - split; [discriminate |]. intros E. symmetry in E.
    apply sapp_eq_nil in E as [_ E]. discriminate.
  - destruct s as [|c2 s2].
    + destruct (Ascii.eqb_spec c (chr 10)) as [->|Hc].
      * split.
        -- now intros [= <-].
        -- destruct s' as [|c' s'']; [reflexivity |].
           rewrite sapp_cons. intros [= _ E].
           destruct s''; discriminate.
      * split; [discriminate |].
        destruct s' as [|c' s''].
        -- intros [= E]. contradiction.
        -- rewrite sapp_cons. intros [= _ E]. destruct s''; discriminate.
    + destruct (before_final_newline (String c2 s2)) as [t|]; simpl.
      * split.
        -- intros [= <-]. rewrite sapp_cons. f_equal. now apply IH.
        -- destruct s' as [|c' s'']; [discriminate |].
           rewrite sapp_cons. intros [= <- E].
           apply IH in E. now inversion E.
      * split; [discriminate |].
        destruct s' as [|c' s'']; [discriminate |].
        rewrite sapp_cons. intros [= <- E].
        apply IH in E. discriminate.
Qed.

(** What the validator accepts: an address in the pattern of the
    specification, or such an address followed by one newline. *)
Lemma match_anchored_EMAIL_REGEX (s : string) :
  match_anchored SmtpUtils.EMAIL_REGEX s = true <->
  Spec.address s \/ exists s', s = s' +:+ LF /\ Spec.address s'.
Proof.
  unfold match_anchored. rewrite orb_true_iff, EMAIL_REGEX_address.
  split; (intros [H|H]; [now left | right]).
  - destruct (before_final_newline s) as [s'|] eqn:E; [| discriminate].
    exists s'. split; [now apply before_final_newline_spec | now apply EMAIL_REGEX_address].
  - destruct H as (s' & E & Hs').
    apply before_final_newline_spec in E. rewrite E.
    now apply EMAIL_REGEX_address.
Qed.

(** ** The address validator *)

(** On a string neither validator raises. *)
Lemma validate_email_address_str (s : string) :
  SmtpUtils.validate_email_address (PyStr s) = Ok (match_anchored SmtpUtils.EMAIL_REGEX s)
  /\ SmtpClient.validate_email_address (PyStr s) = Ok (match_anchored SmtpUtils.EMAIL_REGEX s).
Proof. split; reflexivity. Qed.

(** The strings the validator of [smtp_utils.py] accepts are the addresses
    of the specification and those addresses followed by one newline. *)
Lemma validate_email_address_accepts (s : string) :
  SmtpUtils.validate_email_address (PyStr s) = Ok true <->
  Spec.address s \/ exists s', s = s' +:+ LF /\ Spec.address s'.
Proof.
  simpl. rewrite <- match_anchored_EMAIL_REGEX. split.
  - now intros [= ->].
  - now intros ->.
Qed.

(** X1: on a string that does not end in a newline, the validator answers
    [True] exactly when the string is an address [local-part@domain] of the
    pattern: a local part of one or more of [[A-Za-z0-9._%+-]], a domain of
    one or more of [[A-Za-z0-9.-]], a dot and at least two letters. *)
Lemma validate_email_address_no_newline (s : string) :
  before_final_newline s = None ->
  (SmtpUtils.validate_email_address (PyStr s) = Ok true <-> Spec.address s).
Proof.
  intros Hn. rewrite validate_email_address_accepts. split; [| now left].
  intros [H|(s' & E & _)]; [exact H |].
  apply before_final_newline_spec in E. congruence.
Qed.

Lemma validate_email_address_no_newline_witness :
  SmtpUtils.validate_email_address (PyStr "user.name+tag@mail.example.org") = Ok true
  <-> Spec.address "user.name+tag@mail.example.org".
Proof. apply (validate_email_address_no_newline "user.name+tag@mail.example.org"). reflexivity. Defined.

(** C8 (the code departs from it): an address followed by a newline is not
    in the pattern [local-part@domain], yet both validators accept it, since
    [$] also matches before a final newline; and on a value that is not a
    string the validator of [smtp_utils.py] raises [TypeError], where the one
    of [smtp_client.py] answers [False]. *)
Theorem validate_email_address_final_newline :
  SmtpUtils.validate_email_address (PyStr ("a@b.com" +:+ LF)) = Ok true
  /\ SmtpClient.validate_email_address (PyStr ("a@b.com" +:+ LF)) = Ok true
  /\ ~ Spec.address ("a@b.com" +:+ LF)
  /\ SmtpUtils.validate_email_address (PyStr "a@b.com") = Ok true
  /\ SmtpUtils.validate_email_address (PyStr EmptyString) = Ok false
  /\ SmtpUtils.validate_email_address (PyInt 1) = Raise (Builtin TypeError)
  /\ SmtpUtils.validate_email_address PyNone = Raise (Builtin TypeError)
  /\ SmtpClient.validate_email_address PyNone = Ok false.
Proof.
  repeat split; try reflexivity.
  intros H. apply EMAIL_REGEX_address in H. vm_compute in H. discriminate.
Qed.

(** ** [read_server_response] *)

Lemma status_ok_first (s : string) :
  SmtpUtils.status_ok s = false <-> first1 s <> "2" /\ first1 s <> "3".
Proof.
  unfold SmtpUtils.status_ok. rewrite orb_false_iff, !String.eqb_neq. tauto.
Qed.

Lemma status_ok_true (s : string) :
  SmtpUtils.status_ok s = true <-> first1 s = "2" \/ first1 s = "3".
Proof.
  unfold SmtpUtils.status_ok. rewrite orb_true_iff, !String.eqb_eq. tauto.
Qed.

Lemma read_server_response_text (line : string) (rest : list chunk) (st : state) :
  inbox st = Text line :: rest ->
  SmtpUtils.read_server_response st =
  (if SmtpUtils.status_ok (strip line) then Ok (strip line)
   else Raise (SMTPClientError ("Error del servidor: " +:+ strip line)),
   {| email_sent := email_sent st; error_type := error_type st;
      inbox := rest; log := log st; broken := broken st |}).
Proof.
  intros H. unfold SmtpUtils.read_server_response, bind, reader_read_decode.
  rewrite H. destruct (SmtpUtils.status_ok (strip line)); reflexivity.
Qed.

(** At the end of the stream [read] gives no bytes, and the empty line is a
    protocol error. *)
Lemma read_server_response_eof (st : state) :
  inbox st = [] ->
  SmtpUtils.read_server_response st = (Raise (SMTPClientError "Error del servidor: "), st).
Proof.
  intros H. unfold SmtpUtils.read_server_response, bind, reader_read_decode.
  now rewrite H.
Qed.

(** A read or a decoding that fails is not a protocol error. *)
Lemma read_server_response_fault (e : builtin_error) (rest : list chunk) (st : state) :
  inbox st = Fault e :: rest ->
  fst (SmtpUtils.read_server_response st) = Raise (Builtin e).
Proof.
  intros H. unfold SmtpUtils.read_server_response, bind, reader_read_decode.
  now rewrite H.
Qed.

(** C4: for a response line [line], [read_server_response] raises
    [SMTPClientError] exactly when the first character of the stripped line
    is neither ['2'] nor ['3'] (an empty stripped line has none); the error
    then carries the stripped response text, and otherwise the stripped line
    is returned. *)
Theorem read_server_response_raises_iff (line : string) (rest : list chunk) (st : state) :
  inbox st = Text line :: rest ->
  ((exists msg, fst (SmtpUtils.read_server_response st) = Raise (SMTPClientError msg))
   <-> first1 (strip line) <> "2" /\ first1 (strip line) <> "3")
  /\ (first1 (strip line) <> "2" /\ first1 (strip line) <> "3" ->
      fst (SmtpUtils.read_server_response st)
      = Raise (SMTPClientError ("Error del servidor: " +:+ strip line)))
  /\ (first1 (strip line) = "2" \/ first1 (strip line) = "3" ->
      fst (SmtpUtils.read_server_response st) = Ok (strip line)).
Proof.
  intros H. rewrite (read_server_response_text line rest st H). simpl.
  destruct (SmtpUtils.status_ok (strip line)) eqn:E.
  - apply status_ok_true in E. split; [split |split].
    + intros (msg & Hm). discriminate.
    + intros [H2 H3]. destruct E; contradiction.
    + intros [H2 H3]. destruct E; contradiction.
    + reflexivity.
  - apply status_ok_first in E. split; [split |split].
    + intros _. exact E.
    + intros _. eauto.
    + reflexivity.
    + intros [H2|H3]; destruct E; contradiction.
Qed.

Lemma read_server_response_raises_iff_witness :
  fst (SmtpUtils.read_server_response
         {| email_sent := false; error_type := 0;
            inbox := [Text ("550 Recipient rejected" +:+ CRLF)]; log := []; broken := false |})
  = Raise (SMTPClientError "Error del servidor: 550 Recipient rejected").
Proof.
  apply (read_server_response_raises_iff ("550 Recipient rejected" +:+ CRLF) []);
    [reflexivity | split; discriminate].
Defined.

(** ** Running the monad *)

Lemma bind_ok {A B} (m : M A) (k : A -> M B) (st st' : state) (a : A) :
  m st = (Ok a, st') -> bind m k st = k a st'.
Proof. intros H. unfold bind. now rewrite H. Qed.

Lemma bind_raise {A B} (m : M A) (k : A -> M B) (st st' : state) (e : exn) :
  m st = (Raise e, st') -> bind m k st = (Raise e, st').
Proof. intros H. unfold bind. now rewrite H. Qed.

Lemma bind_assoc {A B C} (m : M A) (k : A -> M B) (k' : B -> M C) (st : state) :
  bind (bind m k) k' st = bind m (fun a => bind (k a) k') st.
Proof. unfold bind. destruct (m st) as [[a|e] st']; reflexivity. Qed.

(** ** Addresses are checked before the connection *)

Lemma validate_email_address_bool (s : string) :
  valid s \/ SmtpUtils.validate_email_address (PyStr s) = Ok false.
Proof.
  unfold valid. simpl. destruct (match_anchored SmtpUtils.EMAIL_REGEX s); auto.
Qed.

Lemma recipients_validate_cons (x : string) (l : list string) :
  SmtpUtils.recipients_validate (x :: l) =
  match SmtpUtils.validate_email_address (PyStr x) with
  | Ok true => SmtpUtils.recipients_validate l
  | Ok false => Ok false
  | Raise e => Raise e
  end.
Proof. reflexivity. Qed.

Lemma recipients_validate_first_invalid (pre post : list string) (r : string) :
  Forall valid pre ->
  SmtpUtils.validate_email_address (PyStr r) = Ok false ->
  SmtpUtils.recipients_validate (pre ++ r :: post) = Ok false.
Proof.
  intros Hpre Hr. induction Hpre as [|x pre Hx _ IH].
  - change ([] ++ r :: post) with (r :: post).
    now rewrite recipients_validate_cons, Hr.
  - change ((x :: pre) ++ r :: post) with (x :: (pre ++ r :: post)).
    unfold valid in Hx. now rewrite recipients_validate_cons, Hx.
Qed.

Lemma recipients_validate_all (l : list string) :
  SmtpUtils.recipients_validate l = Ok true <-> Forall valid l.
Proof.
  induction l as [|x l IH].
  - split; [constructor | reflexivity].
  - rewrite recipients_validate_cons.
    destruct (validate_email_address_bool x) as [Hx|Hx].
    + unfold valid in Hx. rewrite Hx, IH. split.
      * now constructor.
      * now inversion 1.
    + rewrite Hx. split; [discriminate |].
      inversion 1 as [|? ? Hv _]. unfold valid in Hv. congruence.
Qed.

(** C1: when the sender does not validate, [send_email] returns
    [(False, 1)] and has made no call on the transport; when the sender
    validates and some recipient does not, the recipients before the first
    such one all validating, it returns [(False, 2)], again with no call on
    the transport. *)
Theorem send_email_validates_first (T : transport) (date : string)
    (sender_address sender_password : string) (recipient_addresses : list string)
    (email_subject email_body : string) (custom_headers : list (string * string))
    (smtp_server : string) (smtp_port : Z) :
  let run := SmtpUtils.send_email T date sender_address sender_password
               recipient_addresses email_subject email_body custom_headers
               smtp_server smtp_port start in
  (SmtpUtils.validate_email_address (PyStr sender_address) = Ok false ->
   fst run = Ok (false, 1%Z) /\ log (snd run) = [])
  /\ (SmtpUtils.validate_email_address (PyStr sender_address) = Ok true ->
      forall (pre post : list string) (r : string),
        recipient_addresses = pre ++ r :: post ->
        Forall valid pre ->
        SmtpUtils.validate_email_address (PyStr r) = Ok false ->
        fst run = Ok (false, 2%Z) /\ log (snd run) = []).
Proof.
  intros run; subst run. split.
  - intros Hs. unfold SmtpUtils.send_email, bind, lift, set_email_sent, set_error_type.
    rewrite Hs. split; reflexivity.
  - intros Hs pre post r -> Hpre Hr.
    unfold SmtpUtils.send_email, bind, lift, set_email_sent, set_error_type.
    rewrite Hs, (recipients_validate_first_invalid pre post r Hpre Hr).
    split; reflexivity.
Qed.

Lemma send_email_validates_first_witness :
  let run := SmtpUtils.send_email accept_all some_date
               "a@b.com" EmptyString ["c@d.com"; "not an address"; "e@f.com"] "Hi" "Hello" []
               "127.0.0.1" 2525 start in
  fst run = Ok (false, 2%Z) /\ log (snd run) = [].
Proof.
  refine (proj2 (send_email_validates_first accept_all _ "a@b.com" EmptyString _ "Hi" "Hello" []
                   "127.0.0.1" 2525) _ ["c@d.com"] ["e@f.com"] "not an address" _ _ _).
  - reflexivity.
  - reflexivity.
  - repeat constructor.
  - reflexivity.
Defined.

(** ** The answer of [main] *)

Lemma status_codes_other (k : Z) :
  k <> 0%Z -> k <> 1%Z -> k <> 2%Z -> k <> 3%Z -> SmtpUtils.status_codes !! k = None.
Proof.
  intros H0 H1 H2 H3. unfold SmtpUtils.status_codes.
  rewrite !lookup_insert_ne by congruence. apply lookup_empty.
Qed.

Lemma error_messages_other (k : Z) :
  k <> 0%Z -> k <> 1%Z -> k <> 2%Z -> k <> 3%Z -> SmtpUtils.error_messages !! k = None.
Proof.
  intros H0 H1 H2 H3. unfold SmtpUtils.error_messages.
  rewrite !lookup_insert_ne by congruence. apply lookup_empty.
Qed.

(** C9 as stated fails: for error type 3 the message is not
    ["SMTP protocol error"], and for error type 0 it is not
    ["Unknown error"]. *)
Lemma output_messages_differ :
  SmtpUtils.output false 3 = (503%Z, "Error de protocolo SMTP")
  /\ SmtpUtils.output false 3 <> (503%Z, "SMTP protocol error")
  /\ SmtpUtils.output false 0 = (550%Z, "Error desconocido del servidor")
  /\ SmtpUtils.output false 0 <> (550%Z, "Unknown error").
Proof.
  assert (E3 : SmtpUtils.output false 3 = (503%Z, "Error de protocolo SMTP"))
    by (vm_compute; reflexivity).
  assert (E0 : SmtpUtils.output false 0 = (550%Z, "Error desconocido del servidor"))
    by (vm_compute; reflexivity).
  rewrite E3, E0. repeat split; discriminate.
Qed.

(** C9, amended: the answer is (250, "Message accepted for delivery") when
    the message was sent, and otherwise (550, "Error desconocido del
    servidor") for error type 0, (501, "Invalid sender address") for 1,
    (550, "Invalid recipient address") for 2, (503, "Error de protocolo
    SMTP") for 3, and (550, "Unknown error") for any other error type. *)
Theorem output_table (result : bool) (error_type : Z) :
  SmtpUtils.output result error_type =
  if result then (250%Z, "Message accepted for delivery")
  else if (error_type =? 0)%Z then (550%Z, "Error desconocido del servidor")
  else if (error_type =? 1)%Z then (501%Z, "Invalid sender address")
  else if (error_type =? 2)%Z then (550%Z, "Invalid recipient address")
  else if (error_type =? 3)%Z then (503%Z, "Error de protocolo SMTP")
  else (550%Z, "Unknown error").
Proof.
  destruct result; [reflexivity |].
  destruct (Z.eqb_spec error_type 0) as [->|H0]; [vm_compute; reflexivity |].
  destruct (Z.eqb_spec error_type 1) as [->|H1]; [vm_compute; reflexivity |].
  destruct (Z.eqb_spec error_type 2) as [->|H2]; [vm_compute; reflexivity |].
  destruct (Z.eqb_spec error_type 3) as [->|H3]; [vm_compute; reflexivity |].
  unfold SmtpUtils.output.
  now rewrite status_codes_other, error_messages_other.
Qed.

(** ** What every run of the session does to the log and to [email_sent] *)

Lemma extends_refl (P : event -> Prop) (st : state) : extends P st st.
Proof. split; [exists []; split; [now rewrite app_nil_r | constructor] | reflexivity]. Qed.

Lemma extends_trans (P : event -> Prop) (a b c : state) :
  extends P a b -> extends P b c -> extends P a c.
Proof.
  intros [(e1 & L1 & F1) S1] [(e2 & L2 & F2) S2]. split.
  - exists (e1 ++ e2). split; [now rewrite L2, L1, app_assoc | now apply Forall_app].
  - congruence.
Qed.

Lemma tame_ret {A} P (a : A) : tame P (ret a).
Proof. intros st. split; [apply extends_refl | discriminate]. Qed.

Lemma tame_raise {A} P (e : exn) : protocol_error e -> tame P (@raise A e).
Proof. intros He st. split; [apply extends_refl | now intros e' [= <-]]. Qed.

Lemma tame_get_error_type P : tame P get_error_type.
Proof. intros st. split; [apply extends_refl | discriminate]. Qed.

Lemma tame_set_error_type P (v : Z) : tame P (set_error_type v).
Proof.
  intros st. split; [| discriminate].
  split; [exists []; split; [simpl; now rewrite app_nil_r | constructor] | reflexivity].
Qed.

Lemma tame_bind {A B} P (m : M A) (k : A -> M B) :
  tame P m -> (forall a, tame P (k a)) -> tame P (bind m k).
Proof.
  intros Hm Hk st. specialize (Hm st). unfold bind.
  destruct (m st) as [[a|e] st1]; simpl in Hm.
  - destruct Hm as [Hx _]. specialize (Hk a st1). destruct Hk as [Hy He].
    split; [eapply extends_trans; eauto | exact He].
  - destruct Hm as [Hx He]. split; [exact Hx |].
    intros e' [= <-]. now apply He.
Qed.

Lemma tame_try_except {A} P (body : M A) (handler : exn -> option (M A)) :
  tame P body ->
  (forall e h, protocol_error e -> handler e = Some h -> tame P h) ->
  tame P (try_except body handler).
Proof.
  intros Hb Hh st. specialize (Hb st). unfold try_except.
  destruct (body st) as [[a|e] st1]; simpl in Hb; [exact Hb |].
  destruct Hb as [Hx He].
  destruct (handler e) as [h|] eqn:Eh.
  - destruct (Hh e h (He e eq_refl) Eh st1) as [Hy He'].
    split; [eapply extends_trans; eauto | exact He'].
  - split; assumption.
Qed.

Lemma tame_writer_write P (T : transport) (data : bytes) :
  P (Write data) -> tame P (writer_write T data).
Proof.
  intros HP st. split; [| discriminate].
  split; [exists [Write data]; split; [reflexivity | now constructor] | reflexivity].
Qed.

Lemma tame_writer_drain P : tame P writer_drain.
Proof.
  intros st. unfold writer_drain. destruct (broken st); simpl.
  - split; [apply extends_refl | now intros e [= <-]].
  - split; [apply extends_refl | discriminate].
Qed.

Lemma tame_reader_read_decode P : tame P reader_read_decode.
Proof.
  intros st. unfold reader_read_decode.
  destruct (inbox st) as [|[s|e] rest]; simpl.
  - split; [apply extends_refl | discriminate].
  - split; [| discriminate].
    split; [exists []; split; [now rewrite app_nil_r | constructor] | reflexivity].
  - split; [| now intros e' [= <-]].
    split; [exists []; split; [now rewrite app_nil_r | constructor] | reflexivity].
Qed.

Lemma tame_open_connection P (T : transport) (host : string) (port : Z) :
  P (Connect host port) -> tame P (open_connection T host port).
Proof.
  intros HP st. unfold open_connection. destruct (accepts T); simpl.
  - split; [| discriminate].
    split; [exists [Connect host port]; split; [reflexivity | now constructor] | reflexivity].
  - split; [| now intros e [= <-]].
    split; [exists [Connect host port]; split; [reflexivity | now constructor] | reflexivity].
Qed.

Lemma tame_read_server_response P : tame P SmtpUtils.read_server_response.
Proof.
  unfold SmtpUtils.read_server_response.
  apply tame_bind; [apply tame_reader_read_decode |].
  intros data. destruct (negb (SmtpUtils.status_ok (strip data))).
  - apply tame_raise. simpl. eauto.
  - apply tame_ret.
Qed.

Lemma tame_read_tagged P (tag : Z) : tame P (SmtpUtils.read_tagged tag).
Proof.
  unfold SmtpUtils.read_tagged. apply tame_try_except.
  - apply tame_bind; [apply tame_read_server_response | intros; apply tame_ret].
  - intros [msg|e] h He [= <-].
    apply tame_bind; [apply tame_set_error_type | intros; now apply tame_raise].
Qed.

Lemma tame_on_auth_error P (e : exn) (h : M unit) :
  protocol_error e -> SmtpUtils.on_auth_error e = Some h -> tame P h.
Proof.
  destruct e as [msg|e]; intros He [= <-].
  destruct (contains "502" msg); [apply tame_ret | now apply tame_raise].
Qed.

Section TameSession.
Variable P : event -> Prop.
Variable T : transport.
Hypothesis P_write : forall data, P (Write data).

Lemma tame_exchange {A} (data : bytes) (k : string -> M A) :
  (forall r, tame P (k r)) ->
  tame P (writer_write T data ;; writer_drain ;; r <- SmtpUtils.read_server_response ;; k r).
Proof.
  intros Hk.
  apply tame_bind; [now apply tame_writer_write | intros _].
  apply tame_bind; [apply tame_writer_drain | intros _].
  apply tame_bind; [apply tame_read_server_response | exact Hk].
Qed.

Lemma tame_ehlo : tame P (SmtpUtils.ehlo T).
Proof.
  unfold SmtpUtils.ehlo.
  apply tame_bind; [apply tame_read_server_response | intros _].
  apply tame_exchange. intros _. apply tame_ret.
Qed.

Lemma tame_authenticate (sender_address sender_password : string) :
  tame P (SmtpUtils.authenticate T sender_address sender_password).
Proof.
  unfold SmtpUtils.authenticate. apply tame_try_except.
  - apply tame_exchange. intros auth_response.
    destruct (startswith auth_response "334"); [| apply tame_ret].
    apply tame_exchange. intros _. apply tame_ret.
  - apply tame_on_auth_error.
Qed.

Lemma tame_mail_from (sender_address : string) :
  tame P (SmtpUtils.mail_from T sender_address).
Proof.
  unfold SmtpUtils.mail_from.
  apply tame_bind; [now apply tame_writer_write | intros _].
  apply tame_bind; [apply tame_writer_drain | intros _].
  apply tame_read_tagged.
Qed.

Lemma tame_rcpt_loop (recipient_addresses : list string) :
  tame P (SmtpUtils.rcpt_loop T recipient_addresses).
Proof.
  induction recipient_addresses as [|r l IH]; simpl.
  - apply tame_ret.
  - apply tame_bind; [now apply tame_writer_write | intros _].
    apply tame_bind; [apply tame_writer_drain | intros _].
    apply tame_bind; [apply tame_read_tagged | intros _]. exact IH.
Qed.

Lemma tame_send_data (content : string) : tame P (SmtpUtils.send_data T content).
Proof.
  unfold SmtpUtils.send_data.
  apply tame_exchange. intros _.
  apply tame_exchange. intros _.
  apply tame_exchange. intros _. apply tame_ret.
Qed.

Lemma ends_sent_set : ends_sent P (set_email_sent true).
Proof.
  intros st. simpl. split; [| reflexivity].
  exists []. split; [now rewrite app_nil_r | constructor].
Qed.

Lemma ends_sent_bind {A B} (m : M A) (k : A -> M B) :
  tame P m -> (forall a, ends_sent P (k a)) -> ends_sent P (bind m k).
Proof.
  intros Hm Hk st. destruct (Hm st) as [[(e1 & L1 & F1) S1] He]. unfold bind.
  destruct (m st) as [[a|e] st1]; simpl in *.
  - destruct (Hk a st1) as [(e2 & L2 & F2) Hr]. split.
    + exists (e1 ++ e2). split; [now rewrite L2, L1, app_assoc | now apply Forall_app].
    + destruct (fst (k a st1)); [exact Hr |].
      destruct Hr as [Hp Hs]. split; [exact Hp | congruence].
  - split; [eauto |]. split; [now apply He | exact S1].
Qed.

(** The session after [AUTH PLAIN], and after [open_connection]. *)
Lemma ends_sent_envelope (sender_address : string)
    (recipient_addresses : list string) (content : string) :
  ends_sent P
    (SmtpUtils.mail_from T sender_address ;;
     SmtpUtils.rcpt_loop T recipient_addresses ;;
     SmtpUtils.send_data T content ;;
     set_email_sent true).
Proof.
  apply ends_sent_bind; [apply tame_mail_from | intros _].
  apply ends_sent_bind; [apply tame_rcpt_loop | intros _].
  apply ends_sent_bind; [apply tame_send_data | intros _].
  apply ends_sent_set.
Qed.

Lemma ends_sent_commands (sender_address sender_password : string)
    (recipient_addresses : list string) (content : string) :
  ends_sent P
    (SmtpUtils.ehlo T ;;
     SmtpUtils.authenticate T sender_address sender_password ;;
     SmtpUtils.mail_from T sender_address ;;
     SmtpUtils.rcpt_loop T recipient_addresses ;;
     SmtpUtils.send_data T content ;;
     set_email_sent true).
Proof.
  apply ends_sent_bind; [apply tame_ehlo | intros _].
  apply ends_sent_bind; [apply tame_authenticate | intros _].
  apply ends_sent_envelope.
Qed.
End TameSession.

Lemma bind_inv_ok {A B} (m : M A) (k : A -> M B) (st st' : state) (y : B) :
  bind m k st = (Ok y, st') ->
  exists a st1, m st = (Ok a, st1) /\ k a st1 = (Ok y, st').
Proof.
  unfold bind. destruct (m st) as [[a|e] st1]; [eauto | discriminate].
Qed.

(** The log of a session: the connection, then writes only; [email_sent] is
    set only by a session that ends without an exception. *)
Lemma session_outcome (T : transport) (sender_address sender_password : string)
    (recipient_addresses : list string) (content : string)
    (smtp_server : string) (smtp_port : Z) (st : state) :
  let run := SmtpUtils.session T sender_address sender_password recipient_addresses
               content smtp_server smtp_port st in
  (exists evs, log (snd run) = log st ++ Connect smtp_server smtp_port :: evs
               /\ Forall is_write evs)
  /\ match fst run with
     | Ok _ => email_sent (snd run) = true
     | Raise e => protocol_error e /\ email_sent (snd run) = email_sent st
     end.
Proof.
  unfold SmtpUtils.session.
  set (rest := (SmtpUtils.ehlo T ;; _)).
  assert (Hrest : ends_sent is_write rest).
  { apply ends_sent_commands. intros data. exact I. }
  unfold bind, open_connection. destruct (accepts T).
  - match goal with |- context [rest ?s] => specialize (Hrest s) end.
    destruct Hrest as [(evs & L & F) Hr]. simpl in L. split.
    + exists evs. split; [| exact F]. now rewrite L, <- app_assoc.
    + exact Hr.
  - simpl. split; [| split; [exact I | reflexivity]].
    exists []. split; [reflexivity | constructor].
Qed.

(** What [send_email] returns once the addresses have been validated, by
    the way the session ended. *)
Section SendEmailCases.
Variable T : transport.
Variable date : string.
Variables sender_address sender_password : string.
Variable recipient_addresses : list string.
Variables email_subject email_body : string.
Variable custom_headers : list (string * string).
Variable smtp_server : string.
Variable smtp_port : Z.
Hypothesis sender_valid : valid sender_address.
Hypothesis recipients_valid : Forall valid recipient_addresses.

Lemma send_email_unfold :
  SmtpUtils.send_email T date sender_address sender_password recipient_addresses
    email_subject email_body custom_headers smtp_server smtp_port start
  = (try_except
       (SmtpUtils.session T sender_address sender_password recipient_addresses
          (SmtpUtils.email_content date sender_address recipient_addresses
             email_subject email_body custom_headers)
          smtp_server smtp_port)
       SmtpUtils.on_error ;;
     email_sent <- get_email_sent ;;
     error_type <- get_error_type ;;
     ret (email_sent, error_type)) start.
Proof.
  unfold SmtpUtils.send_email.
  unfold bind at 1 2 3 4, lift, set_email_sent, set_error_type.
  unfold valid in sender_valid. rewrite sender_valid.
  apply recipients_validate_all in recipients_valid. rewrite recipients_valid.
  reflexivity.
Qed.

Lemma send_email_session_ok (st' : state) :
  SmtpUtils.session T sender_address sender_password recipient_addresses
    (SmtpUtils.email_content date sender_address recipient_addresses
       email_subject email_body custom_headers)
    smtp_server smtp_port start = (Ok tt, st') ->
  SmtpUtils.send_email T date sender_address sender_password recipient_addresses
    email_subject email_body custom_headers smtp_server smtp_port start
  = (Ok (email_sent st', error_type st'), st').
Proof.
  intros H. rewrite send_email_unfold.
  unfold bind, try_except. now rewrite H.
Qed.

Lemma send_email_session_protocol_error (msg : string) (st' : state) :
  SmtpUtils.session T sender_address sender_password recipient_addresses
    (SmtpUtils.email_content date sender_address recipient_addresses
       email_subject email_body custom_headers)
    smtp_server smtp_port start = (Raise (SMTPClientError msg), st') ->
  fst (SmtpUtils.send_email T date sender_address sender_password
         recipient_addresses email_subject email_body custom_headers
         smtp_server smtp_port start)
  = Ok (email_sent st',
        if (error_type st' =? 0)%Z then
          if contains "501" msg then 1%Z
          else if contains "550" msg then 2%Z
          else 0%Z
        else error_type st')
  /\ log (snd (SmtpUtils.send_email T date sender_address sender_password
                 recipient_addresses email_subject email_body custom_headers
                 smtp_server smtp_port start)) = log st'.
Proof.
  intros H. rewrite send_email_unfold.
  unfold bind, try_except. rewrite H. simpl.
  unfold bind, get_error_type.
  destruct (error_type st' =? 0)%Z eqn:E.
  - destruct (contains "501" msg); [split; reflexivity |].
    destruct (contains "550" msg); [split; reflexivity |].
    apply Z.eqb_eq in E. simpl. rewrite E. split; reflexivity.
  - split; reflexivity.
Qed.

Lemma send_email_session_other_error (e : builtin_error) (st' : state) :
  SmtpUtils.session T sender_address sender_password recipient_addresses
    (SmtpUtils.email_content date sender_address recipient_addresses
       email_subject email_body custom_headers)
    smtp_server smtp_port start = (Raise (Builtin e), st') ->
  fst (SmtpUtils.send_email T date sender_address sender_password
         recipient_addresses email_subject email_body custom_headers
         smtp_server smtp_port start) = Ok (email_sent st', 3%Z)
  /\ log (snd (SmtpUtils.send_email T date sender_address sender_password
                 recipient_addresses email_subject email_body custom_headers
                 smtp_server smtp_port start)) = log st'.
Proof.
  intros H. rewrite send_email_unfold.
  unfold bind, try_except. rewrite H. split; reflexivity.
Qed.

Lemma send_email_log :
  log (snd (SmtpUtils.send_email T date sender_address sender_password
              recipient_addresses email_subject email_body custom_headers
              smtp_server smtp_port start))
  = log (snd (SmtpUtils.session T sender_address sender_password recipient_addresses
                (SmtpUtils.email_content date sender_address recipient_addresses
                   email_subject email_body custom_headers)
                smtp_server smtp_port start)).
Proof.
  destruct (SmtpUtils.session T sender_address sender_password recipient_addresses
              (SmtpUtils.email_content date sender_address recipient_addresses
                 email_subject email_body custom_headers)
              smtp_server smtp_port start) as [[[]|[msg|e]] st'] eqn:H.
  - now rewrite (send_email_session_ok st' H).
  - exact (proj2 (send_email_session_protocol_error msg st' H)).
  - exact (proj2 (send_email_session_other_error e st' H)).
Qed.
End SendEmailCases.

(** ** The error types the session sets *)

Lemma tagging_ret {A} (a : A) : tagging (ret a).
Proof. intros st. now left. Qed.

Lemma tagging_raise {A} (e : exn) : tagging (@raise A e).
Proof. intros st. now left. Qed.

Lemma tagging_set_error_type (v : Z) : v = 1%Z \/ v = 2%Z -> tagging (set_error_type v).
Proof. intros Hv st. now right. Qed.

Lemma tagging_set_email_sent (v : bool) : tagging (set_email_sent v).
Proof. intros st. now left. Qed.

Lemma tagging_bind {A B} (m : M A) (k : A -> M B) :
  tagging m -> (forall a, tagging (k a)) -> tagging (bind m k).
Proof.
  intros Hm Hk st. specialize (Hm st). unfold bind.
  destruct (m st) as [[a|e] st1]; simpl in *; [| exact Hm].
  specialize (Hk a st1). lia.
Qed.

Lemma tagging_try_except {A} (body : M A) (handler : exn -> option (M A)) :
  tagging body ->
  (forall e h, handler e = Some h -> tagging h) ->
  tagging (try_except body handler).
Proof.
  intros Hb Hh st. specialize (Hb st). unfold try_except.
  destruct (body st) as [[a|e] st1]; simpl in *; [exact Hb |].
  destruct (handler e) as [h|] eqn:Eh; [| exact Hb].
  specialize (Hh e h Eh st1). lia.
Qed.

Lemma tagging_writer_write (T : transport) (data : bytes) : tagging (writer_write T data).
Proof. intros st. now left. Qed.

Lemma tagging_writer_drain : tagging writer_drain.
Proof. intros st. unfold writer_drain. destruct (broken st); now left. Qed.

Lemma tagging_open_connection (T : transport) (host : string) (port : Z) :
  tagging (open_connection T host port).
Proof. intros st. unfold open_connection. destruct (accepts T); now left. Qed.

Lemma tagging_read_server_response : tagging SmtpUtils.read_server_response.
Proof.
  unfold SmtpUtils.read_server_response. apply tagging_bind.
  - intros st. unfold reader_read_decode.
    destruct (inbox st) as [|[line|e] rest]; now left.
  - intros data. destruct (negb (SmtpUtils.status_ok (strip data)));
      [apply tagging_raise | apply tagging_ret].
Qed.

Lemma tagging_read_tagged (tag : Z) :
  tag = 1%Z \/ tag = 2%Z -> tagging (SmtpUtils.read_tagged tag).
Proof.
  intros Ht. unfold SmtpUtils.read_tagged. apply tagging_try_except.
  - apply tagging_bind; [apply tagging_read_server_response | intros; apply tagging_ret].
  - intros [msg|e] h [= <-].
    apply tagging_bind; [now apply tagging_set_error_type | intros; apply tagging_raise].
Qed.

Lemma tagging_exchange {A} (T : transport) (data : bytes) (k : string -> M A) :
  (forall r, tagging (k r)) ->
  tagging (writer_write T data ;; writer_drain ;;
           r <- SmtpUtils.read_server_response ;; k r).
Proof.
  intros Hk.
  apply tagging_bind; [apply tagging_writer_write | intros _].
  apply tagging_bind; [apply tagging_writer_drain | intros _].
  apply tagging_bind; [apply tagging_read_server_response | exact Hk].
Qed.

Lemma tagging_rcpt_loop (T : transport) (recipient_addresses : list string) :
  tagging (SmtpUtils.rcpt_loop T recipient_addresses).
Proof.
  induction recipient_addresses as [|r l IH]; simpl; [apply tagging_ret |].
  apply tagging_bind; [apply tagging_writer_write | intros _].
  apply tagging_bind; [apply tagging_writer_drain | intros _].
  apply tagging_bind; [apply tagging_read_tagged; now right | intros _]. exact IH.
Qed.

(** The session leaves [error_type] alone or sets it to 1 ([MAIL FROM]) or
    to 2 ([RCPT TO]). *)
Lemma tagging_session (T : transport) (sender_address sender_password : string)
    (recipient_addresses : list string) (content : string)
    (smtp_server : string) (smtp_port : Z) :
  tagging (SmtpUtils.session T sender_address sender_password recipient_addresses
             content smtp_server smtp_port).
Proof.
  unfold SmtpUtils.session.
  apply tagging_bind; [apply tagging_open_connection | intros _].
  apply tagging_bind; [| intros _].
  { unfold SmtpUtils.ehlo.
    apply tagging_bind; [apply tagging_read_server_response | intros _].
    apply tagging_exchange. intros _. apply tagging_ret. }
  apply tagging_bind; [| intros _].
  { unfold SmtpUtils.authenticate. apply tagging_try_except.
    - apply tagging_exchange. intros auth_response.
      destruct (startswith auth_response "334"); [| apply tagging_ret].
      apply tagging_exchange. intros _. apply tagging_ret.
    - intros [msg|e] h [= <-].
      destruct (contains "502" msg); [apply tagging_ret | apply tagging_raise]. }
  apply tagging_bind; [| intros _].
  { unfold SmtpUtils.mail_from.
    apply tagging_bind; [apply tagging_writer_write | intros _].
    apply tagging_bind; [apply tagging_writer_drain | intros _].
    apply tagging_read_tagged. now left. }
  apply tagging_bind; [apply tagging_rcpt_loop | intros _].
  apply tagging_bind; [| intros _; apply tagging_set_email_sent].
  unfold SmtpUtils.send_data.
  apply tagging_exchange. intros _.
  apply tagging_exchange. intros _.
  apply tagging_exchange. intros _. apply tagging_ret.
Qed.

(** ** Classification of failures *)

Lemma contains_skip (pc c : ascii) (p s : string) :
  pc <> c -> contains (String pc p) (String c s) = contains (String pc p) s.
Proof.
  intros H. simpl. destruct (ascii_dec pc c); [contradiction | reflexivity].
Qed.

(** A status code is found in the message of an [SMTPClientError] exactly
    when it is found in the response text the message carries. *)
Lemma contains_server_error (p text : string) :
  contains (String "5" p) ("Error del servidor: " +:+ text)
  = contains (String "5" p) text.
Proof.
  rewrite !sapp_cons, sapp_nil_l.
  now rewrite !contains_skip by discriminate.
Qed.

(** C6: when a failure ends the session, the error type set at the
    [MAIL FROM] or [RCPT TO] step (1 or 2), if any, is the outcome; with
    none set, a protocol failure is of type 1 when the response text
    contains [501], else of type 2 when it contains [550], and of type 0
    otherwise; any other exception gives type 3.  In every case nothing was
    sent. *)
Theorem send_email_failure_classification (T : transport) (date : string)
    (sender_address sender_password : string) (recipient_addresses : list string)
    (email_subject email_body : string) (custom_headers : list (string * string))
    (smtp_server : string) (smtp_port : Z) (e : exn) (st' : state) :
  valid sender_address ->
  Forall valid recipient_addresses ->
  SmtpUtils.session T sender_address sender_password recipient_addresses
    (SmtpUtils.email_content date sender_address recipient_addresses
       email_subject email_body custom_headers)
    smtp_server smtp_port start = (Raise e, st') ->
  let outcome :=
    fst (SmtpUtils.send_email T date sender_address sender_password
           recipient_addresses email_subject email_body custom_headers
           smtp_server smtp_port start) in
  (error_type st' = 0%Z \/ error_type st' = 1%Z \/ error_type st' = 2%Z)
  /\ match e with
     | SMTPClientError msg =>
         exists text,
           msg = "Error del servidor: " +:+ text
           /\ outcome =
              Ok (false,
                  if (error_type st' =? 0)%Z then
                    if contains "501" text then 1%Z
                    else if contains "550" text then 2%Z
                    else 0%Z
                  else error_type st')
     | Builtin _ => outcome = Ok (false, 3%Z)
     end.
Proof.
  intros Hs Hr Hrun outcome; subst outcome.
  split.
  { pose proof (tagging_session T sender_address sender_password recipient_addresses
                  (SmtpUtils.email_content date sender_address recipient_addresses
                     email_subject email_body custom_headers)
                  smtp_server smtp_port start) as Ht.
    rewrite Hrun in Ht. exact Ht. }
  pose proof (session_outcome T sender_address sender_password recipient_addresses
                (SmtpUtils.email_content date sender_address recipient_addresses
                   email_subject email_body custom_headers)
                smtp_server smtp_port start) as [_ Hout].
  rewrite Hrun in Hout. simpl in Hout. destruct Hout as [Hp Hsent].
  destruct e as [msg|be].
  - destruct Hp as (text & ->). exists text. split; [reflexivity |].
    destruct (send_email_session_protocol_error T date sender_address sender_password
                recipient_addresses email_subject email_body custom_headers
                smtp_server smtp_port Hs Hr _ st' Hrun) as [-> _].
    now rewrite Hsent, !contains_server_error.
  - destruct (send_email_session_other_error T date sender_address sender_password
                recipient_addresses email_subject email_body custom_headers
                smtp_server smtp_port Hs Hr be st' Hrun) as [-> _].
    now rewrite Hsent.
Qed.

Lemma valid_example_addresses :
  valid "a@b.com" /\ Forall valid ["c@d.com"]
  /\ Forall valid ["c@d.com"; "e@f.com"; "g@h.com"].
Proof. repeat constructor. Qed.

Lemma send_email_failure_classification_witness :
  fst (SmtpUtils.send_email reject_data some_date "a@b.com" EmptyString ["c@d.com"]
         "Hi" "Hello" [] "127.0.0.1" 2525 start) = Ok (false, 2%Z).
Proof.
  destruct (send_email_failure_classification reject_data some_date "a@b.com" EmptyString
              ["c@d.com"] "Hi" "Hello" [] "127.0.0.1" 2525
              (SMTPClientError "Error del servidor: 550 no")
              {| email_sent := false; error_type := 0; inbox := [];
                 log := [Connect "127.0.0.1" 2525;
                         Write (b ("EHLO localhost" +:+ CRLF));
                         Write (b ("AUTH PLAIN" +:+ CRLF));
                         Write (b ("MAIL FROM:a@b.com" +:+ CRLF));
                         Write (b ("RCPT TO:c@d.com" +:+ CRLF));
                         Write (b ("DATA" +:+ CRLF))];
                 broken := false |}
              (proj1 valid_example_addresses)
              (proj1 (proj2 valid_example_addresses))
              eq_refl) as (_ & text & E & R).
  apply (inj (String.app "Error del servidor: ")) in E. subst text. exact R.
Defined.

(** ** The calls on the transport *)

Lemma recipients_validate_bool (l : list string) :
  SmtpUtils.recipients_validate l = Ok true \/ SmtpUtils.recipients_validate l = Ok false.
Proof.
  induction l as [|x l IH]; [now left |].
  rewrite recipients_validate_cons.
  destruct (validate_email_address_bool x) as [Hx|Hx].
  - unfold valid in Hx. now rewrite Hx.
  - rewrite Hx. now right.
Qed.

(** The log of any call of [send_email]: nothing, or one connection and then
    writes only. *)
Lemma send_email_log_shape (T : transport) (date : string)
    (sender_address sender_password : string) (recipient_addresses : list string)
    (email_subject email_body : string) (custom_headers : list (string * string))
    (smtp_server : string) (smtp_port : Z) :
  let run := SmtpUtils.send_email T date sender_address sender_password
               recipient_addresses email_subject email_body custom_headers
               smtp_server smtp_port start in
  log (snd run) = []
  \/ exists evs, log (snd run) = Connect smtp_server smtp_port :: evs
                 /\ Forall is_write evs.
Proof.
  intros run; subst run.
  destruct (validate_email_address_bool sender_address) as [Hs|Hs].
  - destruct (recipients_validate_bool recipient_addresses) as [Hr|Hr].
    + right. apply recipients_validate_all in Hr.
      rewrite (send_email_log T date sender_address sender_password recipient_addresses
                 email_subject email_body custom_headers smtp_server smtp_port Hs Hr).
      destruct (session_outcome T sender_address sender_password recipient_addresses
                  (SmtpUtils.email_content date sender_address recipient_addresses
                     email_subject email_body custom_headers)
                  smtp_server smtp_port start) as [(evs & L & F) _].
      exists evs. split; assumption.
    + left. unfold valid in Hs.
      unfold SmtpUtils.send_email, bind, lift, set_email_sent, set_error_type.
      now rewrite Hs, Hr.
  - left. unfold SmtpUtils.send_email, bind, lift, set_email_sent, set_error_type.
    now rewrite Hs.
Qed.

(** No call of [send_email] closes the connection, and none opens more than
    one. *)
Lemma send_email_never_closes (T : transport) (date : string)
    (sender_address sender_password : string) (recipient_addresses : list string)
    (email_subject email_body : string) (custom_headers : list (string * string))
    (smtp_server : string) (smtp_port : Z) :
  ~ In Close (log (snd (SmtpUtils.send_email T date sender_address sender_password
                          recipient_addresses email_subject email_body custom_headers
                          smtp_server smtp_port start))).
Proof.
  destruct (send_email_log_shape T date sender_address sender_password
              recipient_addresses email_subject email_body custom_headers
              smtp_server smtp_port) as [->|(evs & -> & F)].
  - intros [].
  - intros [H|H]; [discriminate |].
    rewrite Forall_forall in F. apply list_elem_of_In in H. exact (F _ H).
Qed.

(** [send_email] itself never raises on addresses that are strings. *)
Lemma send_email_returns (T : transport) (date : string)
    (sender_address sender_password : string) (recipient_addresses : list string)
    (email_subject email_body : string) (custom_headers : list (string * string))
    (smtp_server : string) (smtp_port : Z) :
  exists (sent : bool) (class : Z),
    fst (SmtpUtils.send_email T date sender_address sender_password
           recipient_addresses email_subject email_body custom_headers
           smtp_server smtp_port start) = Ok (sent, class).
Proof.
  destruct (validate_email_address_bool sender_address) as [Hs|Hs].
  - destruct (recipients_validate_bool recipient_addresses) as [Hr|Hr].
    + apply recipients_validate_all in Hr.
      destruct (SmtpUtils.session T sender_address sender_password recipient_addresses
                  (SmtpUtils.email_content date sender_address recipient_addresses
                     email_subject email_body custom_headers)
                  smtp_server smtp_port start) as [[[]|[msg|e]] st'] eqn:H.
      * rewrite (send_email_session_ok T date sender_address sender_password
                   recipient_addresses email_subject email_body custom_headers
                   smtp_server smtp_port Hs Hr st' H). eauto.
      * destruct (send_email_session_protocol_error T date sender_address
                    sender_password recipient_addresses email_subject email_body
                    custom_headers smtp_server smtp_port Hs Hr msg st' H) as [-> _]. eauto.
      * destruct (send_email_session_other_error T date sender_address
                    sender_password recipient_addresses email_subject email_body
                    custom_headers smtp_server smtp_port Hs Hr e st' H) as [-> _]. eauto.
    + unfold valid in Hs.
      unfold SmtpUtils.send_email, bind, lift, set_email_sent, set_error_type.
      rewrite Hs, Hr. simpl. eauto.
  - unfold SmtpUtils.send_email, bind, lift, set_email_sent, set_error_type.
    rewrite Hs. simpl. eauto.
Qed.

(** C2 (the code departs from it): a delivery that succeeds, one whose
    [RCPT TO] is answered [550 Recipient rejected], and one whose connection
    is reset, each open the connection and return without any call that
    closes it. *)
Theorem send_email_leaves_connection_open :
  let sent := SmtpUtils.send_email accept_all some_date "a@b.com" EmptyString
                ["c@d.com"] "Hi" "Hello" [] "127.0.0.1" 2525 start in
  let rejected := SmtpUtils.send_email reject_rcpt some_date "a@b.com" EmptyString
                    ["c@d.com"] "Hi" "Hello" [] "127.0.0.1" 2525 start in
  let lost := SmtpUtils.send_email resets some_date "a@b.com" EmptyString
                ["c@d.com"] "Hi" "Hello" [] "127.0.0.1" 2525 start in
  (fst sent = Ok (true, 0%Z)
   /\ In (Connect "127.0.0.1" 2525) (log (snd sent))
   /\ ~ In Close (log (snd sent)))
  /\ (fst rejected = Ok (false, 2%Z)
      /\ In (Connect "127.0.0.1" 2525) (log (snd rejected))
      /\ ~ In Close (log (snd rejected)))
  /\ (fst lost = Ok (false, 3%Z)
      /\ In (Connect "127.0.0.1" 2525) (log (snd lost))
      /\ ~ In Close (log (snd lost))).
Proof.
  intros sent rejected lost. subst sent rejected lost.
  split; [| split].
  - split; [vm_compute; reflexivity |].
    split; [vm_compute; auto | vm_compute; intuition discriminate].
  - split; [vm_compute; reflexivity |].
    split; [vm_compute; auto | vm_compute; intuition discriminate].
  - split; [vm_compute; reflexivity |].
    split; [vm_compute; auto | vm_compute; intuition discriminate].
Qed.

(** A refused connection is a failure of type 3. *)
Lemma send_email_connection_refused :
  fst (SmtpUtils.send_email refuses some_date "a@b.com" EmptyString
         ["c@d.com"] "Hi" "Hello" [] "127.0.0.1" 2525 start) = Ok (false, 3%Z).
Proof. vm_compute. reflexivity. Qed.

(** ** [AUTH PLAIN] *)

Lemma bind_try_step {A B C} (m : M A) (k : A -> M B) (h : exn -> option (M B))
    (K : B -> M C) (st st' : state) (a : A) :
  m st = (Ok a, st') ->
  bind (try_except (bind m k) h) K st = bind (try_except (k a) h) K st'.
Proof. intros H. unfold try_except, bind. now rewrite H. Qed.

Lemma startswith_334_status_ok (s : string) :
  startswith s "334" = true -> SmtpUtils.status_ok s = true.
Proof.
  destruct s as [|c s]; unfold startswith; intros H; [discriminate |].
  change (String.prefix "334" (String c s))
    with (if ascii_dec "3" c then String.prefix "34" s else false) in H.
  destruct (ascii_dec "3" c) as [<-|]; [reflexivity | discriminate].
Qed.

Lemma writer_write_run (T : transport) (data : bytes) (st st' : state) :
  writer_write T data st = (Ok tt, st') -> log st' = log st ++ [Write data].
Proof. unfold writer_write. intros H. injection H as <-. reflexivity. Qed.

Lemma writer_drain_run (st st' : state) :
  writer_drain st = (Ok tt, st') -> st' = st /\ broken st = false.
Proof.
  unfold writer_drain. destruct (broken st); [discriminate |].
  intros H. injection H as <-. split; reflexivity.
Qed.

(** The pieces of the [try] around [AUTH PLAIN] after its first write. *)
Lemma tame_credential P (T : transport) (sender_address sender_password : string)
    (auth_response : string) :
  (forall data, P (Write data)) ->
  tame P
    (if startswith auth_response "334" then
       writer_write T
         (b64encode (encode (NUL +:+ sender_address +:+ NUL +:+ sender_password)) ++ b CRLF) ;;
       writer_drain ;;
       _ <- SmtpUtils.read_server_response ;;
       ret tt
     else ret tt).
Proof.
  intros HP. destruct (startswith auth_response "334"); [| apply tame_ret].
  apply tame_exchange; [exact HP |]. intros _. apply tame_ret.
Qed.

(** C3, amended: once the answer to [EHLO] is accepted, [send_email] writes
    [AUTH PLAIN] whatever the password is, the empty one included; and when
    the response to it begins with [334], the next write is the base64
    encoding of NUL, sender address, NUL, password, followed by CRLF. *)
Theorem auth_plain_always_attempted (T : transport) (date : string)
    (sender_address sender_password : string) (recipient_addresses : list string)
    (email_subject email_body : string) (custom_headers : list (string * string))
    (smtp_server : string) (smtp_port : Z) (st1 : state) :
  valid sender_address ->
  Forall valid recipient_addresses ->
  (open_connection T smtp_server smtp_port ;; SmtpUtils.ehlo T) start = (Ok tt, st1) ->
  let final :=
    log (snd (SmtpUtils.send_email T date sender_address sender_password
                recipient_addresses email_subject email_body custom_headers
                smtp_server smtp_port start)) in
  (exists evs, final = log st1 ++ Write (b ("AUTH PLAIN" +:+ CRLF)) :: evs)
  /\ (forall (st2 : state) (line : string) (rest : list chunk),
        (writer_write T (b ("AUTH PLAIN" +:+ CRLF)) ;; writer_drain) st1 = (Ok tt, st2) ->
        inbox st2 = Text line :: rest ->
        startswith (strip line) "334" = true ->
        exists evs,
          final = log st1 ++
                  Write (b ("AUTH PLAIN" +:+ CRLF))
                  :: Write (b64encode (encode (NUL +:+ sender_address +:+ NUL
                                               +:+ sender_password)) ++ b CRLF)
                  :: evs).
Proof.
  intros Hs Hr Hpre final; subst final.
  rewrite (send_email_log T date sender_address sender_password recipient_addresses
             email_subject email_body custom_headers smtp_server smtp_port Hs Hr).
  apply bind_inv_ok in Hpre as ([] & s0 & Hopen & Hehlo).
  unfold SmtpUtils.session.
  rewrite (bind_ok _ _ _ _ _ Hopen), (bind_ok _ _ _ _ _ Hehlo).
  set (ENV := (SmtpUtils.mail_from T sender_address ;; _)).
  assert (HENV : ends_sent is_write ENV).
  { apply ends_sent_envelope. intros data. exact I. }
  assert (HW : forall data, is_write (Write data)) by (intros data; exact I).
  unfold SmtpUtils.authenticate.
  split.
  - rewrite (bind_try_step (writer_write T _) _ _ _ st1 _ tt eq_refl).
    match goal with
    | |- context [snd (bind ?m ?K ?s)] =>
        assert (HE : ends_sent is_write (bind m K))
    end.
    { apply ends_sent_bind; [| intros _; exact HENV].
      apply tame_try_except; [| apply tame_on_auth_error].
      apply tame_bind; [apply tame_writer_drain | intros _].
      apply tame_bind; [apply tame_read_server_response | intros r].
      now apply tame_credential. }
    match goal with
    | |- context [snd (bind ?m ?K ?s)] => destruct (HE s) as [(evs & L & _) _]
    end.
    exists evs. rewrite L. simpl. now rewrite <- app_assoc.
  - intros st2 line rest Hwd Hin H334.
    apply bind_inv_ok in Hwd as ([] & sw & Hw & Hd).
    pose proof (writer_write_run _ _ _ _ Hw) as Lw.
    pose proof (writer_drain_run _ _ Hd) as [-> _].
    pose proof (read_server_response_text line rest sw Hin) as Hread.
    rewrite (startswith_334_status_ok _ H334) in Hread.
    rewrite (bind_try_step _ _ _ _ _ _ _ Hw).
    rewrite (bind_try_step _ _ _ _ _ _ _ Hd).
    rewrite (bind_try_step _ _ _ _ _ _ _ Hread).
    cbv beta. rewrite H334.
    rewrite (bind_try_step (writer_write T _) _ _ _ _ _ tt eq_refl).
    match goal with
    | |- context [snd (bind ?m ?K ?s)] =>
        assert (HE : ends_sent is_write (bind m K))
    end.
    { apply ends_sent_bind; [| intros _; exact HENV].
      apply tame_try_except; [| apply tame_on_auth_error].
      apply tame_bind; [apply tame_writer_drain | intros _].
      apply tame_bind; [apply tame_read_server_response | intros r].
      apply tame_ret. }
    match goal with
    | |- context [snd (bind ?m ?K ?s)] => destruct (HE s) as [(evs & L & _) _]
    end.
    exists evs. rewrite L. simpl. rewrite Lw. now rewrite <- !app_assoc.
Qed.

Lemma auth_plain_always_attempted_witness :
  exists evs,
    log (snd (SmtpUtils.send_email asks_credential some_date "a@b.com" "pw"
                ["c@d.com"] "Hi" "Hello" [] "127.0.0.1" 2525 start))
    = [Connect "127.0.0.1" 2525; Write (b ("EHLO localhost" +:+ CRLF))] ++
      Write (b ("AUTH PLAIN" +:+ CRLF))
      :: Write (b "AGFAYi5jb20AcHc=" ++ b CRLF) :: evs.
Proof.
  refine (proj2 (auth_plain_always_attempted asks_credential some_date "a@b.com" "pw"
                   ["c@d.com"] "Hi" "Hello" [] "127.0.0.1" 2525
                   {| email_sent := false; error_type := 0; inbox := [];
                      log := [Connect "127.0.0.1" 2525;
                              Write (b ("EHLO localhost" +:+ CRLF))];
                      broken := false |}
                   (proj1 valid_example_addresses)
                   (proj1 (proj2 valid_example_addresses)) eq_refl)
            {| email_sent := false; error_type := 0;
               inbox := [Text ("334 " +:+ CRLF)];
               log := [Connect "127.0.0.1" 2525;
                       Write (b ("EHLO localhost" +:+ CRLF));
                       Write (b ("AUTH PLAIN" +:+ CRLF))];
               broken := false |}
            ("334 " +:+ CRLF) [] eq_refl eq_refl eq_refl).
Defined.

(** C3 as stated fails: with the empty password, that is with no credential
    supplied, [AUTH PLAIN] is written all the same. *)
Lemma auth_plain_without_credential :
  In (Write (b ("AUTH PLAIN" +:+ CRLF)))
     (log (snd (SmtpUtils.send_email accept_all some_date "a@b.com" EmptyString
                  ["c@d.com"] "Hi" "Hello" [] "127.0.0.1" 2525 start))).
Proof. vm_compute. auto. Qed.

(** ** [MAIL FROM] and [RCPT TO] *)

Lemma bind_run_eq {A B} (m m' : M A) (k : A -> M B) (st st' : state) :
  m st = m' st' -> bind m k st = bind m' k st'.
Proof. intros H. unfold bind. now rewrite H. Qed.

Lemma bind_run_eq_cont {A B} (m : M A) (k k' : A -> M B) (st : state) :
  (forall a s, k a s = k' a s) -> bind m k st = bind m k' st.
Proof. intros H. unfold bind. destruct (m st) as [[a|e] s]; [apply H | reflexivity]. Qed.

Lemma read_tagged_fail (tag : Z) (line : string) (rest : list chunk) (st : state) :
  inbox st = Text line :: rest ->
  SmtpUtils.status_ok (strip line) = false ->
  SmtpUtils.read_tagged tag st =
  (Raise (SMTPClientError ("Error del servidor: " +:+ strip line)),
   {| email_sent := email_sent st; error_type := tag;
      inbox := rest; log := log st; broken := broken st |}).
Proof.
  intros Hin Hbad. unfold SmtpUtils.read_tagged, try_except, bind.
  rewrite (read_server_response_text line rest st Hin), Hbad. reflexivity.
Qed.

Lemma read_tagged_ok (tag : Z) (line : string) (rest : list chunk) (st : state) :
  inbox st = Text line :: rest ->
  SmtpUtils.status_ok (strip line) = true ->
  SmtpUtils.read_tagged tag st =
  (Ok tt,
   {| email_sent := email_sent st; error_type := error_type st;
      inbox := rest; log := log st; broken := broken st |}).
Proof.
  intros Hin Hok. unfold SmtpUtils.read_tagged, try_except, bind.
  rewrite (read_server_response_text line rest st Hin), Hok. reflexivity.
Qed.

Lemma read_server_response_log (st : state) :
  log (snd (SmtpUtils.read_server_response st)) = log st.
Proof.
  unfold SmtpUtils.read_server_response, bind, reader_read_decode.
  destruct (inbox st) as [|[line|e] rest]; simpl; try reflexivity.
  destruct (SmtpUtils.status_ok (strip line)); reflexivity.
Qed.

Lemma read_tagged_log (tag : Z) (st : state) :
  log (snd (SmtpUtils.read_tagged tag st)) = log st.
Proof.
  pose proof (read_server_response_log st) as H.
  unfold SmtpUtils.read_tagged, try_except, bind.
  destruct (SmtpUtils.read_server_response st) as [[r|[msg|e]] st']; exact H.
Qed.

Lemma rcpt_loop_cons (T : transport) (r : string) (l : list string) :
  SmtpUtils.rcpt_loop T (r :: l) =
  (writer_write T (encode ("RCPT TO:" +:+ r +:+ CRLF)) ;;
   writer_drain ;;
   SmtpUtils.read_tagged 2 ;;
   SmtpUtils.rcpt_loop T l).
Proof. reflexivity. Qed.

Lemma rcpt_loop_app (T : transport) (pre l : list string) (st : state) :
  SmtpUtils.rcpt_loop T (pre ++ l) st =
  (SmtpUtils.rcpt_loop T pre ;; SmtpUtils.rcpt_loop T l) st.
Proof.
  revert st. induction pre as [|x pre IH]; intros st.
  - reflexivity.
  - change ((x :: pre) ++ l) with (x :: (pre ++ l)).
    rewrite !rcpt_loop_cons, !bind_assoc.
    apply bind_run_eq_cont. intros [] s1. rewrite bind_assoc.
    apply bind_run_eq_cont. intros [] s2. rewrite bind_assoc.
    apply bind_run_eq_cont. intros [] s3. apply IH.
Qed.

Lemma rcpt_loop_log (T : transport) (pre : list string) (st st' : state) :
  SmtpUtils.rcpt_loop T pre st = (Ok tt, st') ->
  log st' = log st ++ map rcpt_command pre.
Proof.
  revert st. induction pre as [|x pre IH]; intros st H.
  - injection H as <-. simpl. now rewrite app_nil_r.
  - rewrite rcpt_loop_cons in H.
    apply bind_inv_ok in H as ([] & s1 & Hw & H).
    apply bind_inv_ok in H as ([] & s2 & Hd & H).
    apply bind_inv_ok in H as ([] & s3 & Ht & H).
    apply writer_write_run in Hw. apply writer_drain_run in Hd as [-> _].
    pose proof (read_tagged_log 2 s1) as L3. rewrite Ht in L3. simpl in L3.
    rewrite (IH s3 H), L3, Hw. simpl. now rewrite <- app_assoc.
Qed.

(** C5: a response to [MAIL FROM] that is not 2xx/3xx gives error type 1
    and one to [RCPT TO] gives error type 2; and after the first [RCPT TO]
    that fails nothing more is written, so no [RCPT TO] goes out for the
    recipients after it. *)
Theorem step_failures_are_classified (T : transport) (date : string)
    (sender_address sender_password : string) (recipient_addresses : list string)
    (email_subject email_body : string) (custom_headers : list (string * string))
    (smtp_server : string) (smtp_port : Z) :
  valid sender_address ->
  Forall valid recipient_addresses ->
  let call := SmtpUtils.send_email T date sender_address sender_password
                recipient_addresses email_subject email_body custom_headers
                smtp_server smtp_port start in
  (forall (st1 : state) (line : string) (rest : list chunk),
      (open_connection T smtp_server smtp_port ;;
       SmtpUtils.ehlo T ;;
       SmtpUtils.authenticate T sender_address sender_password ;;
       writer_write T (encode ("MAIL FROM:" +:+ sender_address +:+ CRLF)) ;;
       writer_drain) start = (Ok tt, st1) ->
      inbox st1 = Text line :: rest ->
      SmtpUtils.status_ok (strip line) = false ->
      fst call = Ok (false, 1%Z))
  /\ (forall (st1 st2 : state) (pre post : list string) (r line : string)
             (rest : list chunk),
        (open_connection T smtp_server smtp_port ;;
         SmtpUtils.ehlo T ;;
         SmtpUtils.authenticate T sender_address sender_password ;;
         SmtpUtils.mail_from T sender_address) start = (Ok tt, st1) ->
        recipient_addresses = pre ++ r :: post ->
        (SmtpUtils.rcpt_loop T pre ;;
         writer_write T (encode ("RCPT TO:" +:+ r +:+ CRLF)) ;;
         writer_drain) st1 = (Ok tt, st2) ->
        inbox st2 = Text line :: rest ->
        SmtpUtils.status_ok (strip line) = false ->
        fst call = Ok (false, 2%Z)
        /\ log (snd call) = log st1 ++ map rcpt_command (pre ++ [r])).
Proof.
  intros Hs Hr call; subst call.
  set (content := SmtpUtils.email_content date sender_address recipient_addresses
                    email_subject email_body custom_headers).
  pose proof (session_outcome T sender_address sender_password recipient_addresses
                content smtp_server smtp_port start) as [_ Hout].
  split.
  - intros st1 line rest Hpre Hin Hbad.
    apply bind_inv_ok in Hpre as ([] & s0 & Hopen & Hpre).
    apply bind_inv_ok in Hpre as ([] & s1 & Hehlo & Hpre).
    apply bind_inv_ok in Hpre as ([] & s2 & Hauth & Hpre).
    apply bind_inv_ok in Hpre as ([] & s3 & Hw & Hd).
    assert (Hrun : SmtpUtils.session T sender_address sender_password
                     recipient_addresses content smtp_server smtp_port start
                   = (Raise (SMTPClientError ("Error del servidor: " +:+ strip line)),
                      {| email_sent := email_sent st1; error_type := 1;
                         inbox := rest; log := log st1; broken := broken st1 |})).
    { unfold SmtpUtils.session.
      rewrite (bind_ok _ _ _ _ _ Hopen), (bind_ok _ _ _ _ _ Hehlo),
        (bind_ok _ _ _ _ _ Hauth).
      unfold SmtpUtils.mail_from.
      rewrite bind_assoc, (bind_ok _ _ _ _ _ Hw).
      rewrite bind_assoc, (bind_ok _ _ _ _ _ Hd).
      apply bind_raise. now apply read_tagged_fail. }
    rewrite Hrun in Hout. simpl in Hout. destruct Hout as [_ Hsent].
    destruct (send_email_session_protocol_error T date sender_address sender_password
                recipient_addresses email_subject email_body custom_headers
                smtp_server smtp_port Hs Hr _ _ Hrun) as [-> _].
    simpl. now rewrite Hsent.
  - intros st1 st2 pre post r line rest Hpre -> Hloop Hin Hbad.
    apply bind_inv_ok in Hpre as ([] & s0 & Hopen & Hpre).
    apply bind_inv_ok in Hpre as ([] & s1 & Hehlo & Hpre).
    apply bind_inv_ok in Hpre as ([] & s2 & Hauth & Hmail).
    apply bind_inv_ok in Hloop as ([] & sA & Hpre & Hloop).
    apply bind_inv_ok in Hloop as ([] & sB & Hw & Hd).
    assert (Hrun : SmtpUtils.session T sender_address sender_password
                     (pre ++ r :: post) content smtp_server smtp_port start
                   = (Raise (SMTPClientError ("Error del servidor: " +:+ strip line)),
                      {| email_sent := email_sent st2; error_type := 2;
                         inbox := rest; log := log st2; broken := broken st2 |})).
    { unfold SmtpUtils.session.
      rewrite (bind_ok _ _ _ _ _ Hopen), (bind_ok _ _ _ _ _ Hehlo),
        (bind_ok _ _ _ _ _ Hauth), (bind_ok _ _ _ _ _ Hmail).
      rewrite (bind_run_eq _ _ _ _ _ (rcpt_loop_app T pre (r :: post) st1)).
      rewrite bind_assoc, (bind_ok _ _ _ _ _ Hpre).
      rewrite rcpt_loop_cons.
      rewrite bind_assoc, (bind_ok _ _ _ _ _ Hw).
      rewrite bind_assoc, (bind_ok _ _ _ _ _ Hd).
      rewrite bind_assoc.
      apply bind_raise. now apply read_tagged_fail. }
    rewrite Hrun in Hout. simpl in Hout. destruct Hout as [_ Hsent].
    destruct (send_email_session_protocol_error T date sender_address sender_password
                (pre ++ r :: post) email_subject email_body custom_headers
                smtp_server smtp_port Hs Hr _ _ Hrun) as [-> ->].
    simpl. rewrite Hsent. split; [reflexivity |].
    apply writer_write_run in Hw. apply writer_drain_run in Hd as [-> _].
    rewrite Hw, (rcpt_loop_log T pre st1 sA Hpre), map_app.
    now rewrite <- app_assoc.
Qed.

Lemma step_failures_are_classified_witness :
  let call := SmtpUtils.send_email reject_second some_date "a@b.com" EmptyString
                ["c@d.com"; "e@f.com"; "g@h.com"] "Hi" "Hello" [] "127.0.0.1" 2525 start in
  fst call = Ok (false, 2%Z)
  /\ log (snd call) =
     [Connect "127.0.0.1" 2525;
      Write (b ("EHLO localhost" +:+ CRLF));
      Write (b ("AUTH PLAIN" +:+ CRLF));
      Write (b ("MAIL FROM:a@b.com" +:+ CRLF))]
     ++ map rcpt_command (["c@d.com"] ++ ["e@f.com"]).
Proof.
  refine (proj2 (step_failures_are_classified reject_second some_date "a@b.com"
                   EmptyString ["c@d.com"; "e@f.com"; "g@h.com"] "Hi" "Hello" []
                   "127.0.0.1" 2525
                   (proj1 valid_example_addresses)
                   (proj2 (proj2 valid_example_addresses)))
            {| email_sent := false; error_type := 0; inbox := [];
               log := [Connect "127.0.0.1" 2525;
                       Write (b ("EHLO localhost" +:+ CRLF));
                       Write (b ("AUTH PLAIN" +:+ CRLF));
                       Write (b ("MAIL FROM:a@b.com" +:+ CRLF))];
               broken := false |}
            {| email_sent := false; error_type := 0;
               inbox := [Text ("550 No such user" +:+ CRLF)];
               log := [Connect "127.0.0.1" 2525;
                       Write (b ("EHLO localhost" +:+ CRLF));
                       Write (b ("AUTH PLAIN" +:+ CRLF));
                       Write (b ("MAIL FROM:a@b.com" +:+ CRLF));
                       Write (b ("RCPT TO:c@d.com" +:+ CRLF));
                       Write (b ("RCPT TO:e@f.com" +:+ CRLF))];
               broken := false |}
            ["c@d.com"] ["g@h.com"] "e@f.com" ("550 No such user" +:+ CRLF) []
            eq_refl eq_refl eq_refl eq_refl eq_refl).
Defined.

(** ** A server without [AUTH] *)

Lemma try_step {A B} (m : M A) (k : A -> M B) (h : exn -> option (M B))
    (st st' : state) (a : A) :
  m st = (Ok a, st') -> try_except (bind m k) h st = try_except (k a) h st'.
Proof. intros H. unfold try_except, bind. now rewrite H. Qed.

Lemma try_caught {A B} (m : M A) (k : A -> M B) (h : exn -> option (M B))
    (st st' : state) (e : exn) (handler : M B) :
  m st = (Raise e, st') -> h e = Some handler ->
  try_except (bind m k) h st = handler st'.
Proof. intros H He. unfold try_except, bind. now rewrite H, He. Qed.

(** A failure of [AUTH PLAIN] whose text contains [502] is swallowed. *)
Lemma authenticate_502 (T : transport) (sender_address sender_password : string)
    (st st1 : state) (line : string) (rest : list chunk) :
  (writer_write T (b ("AUTH PLAIN" +:+ CRLF)) ;; writer_drain) st = (Ok tt, st1) ->
  inbox st1 = Text line :: rest ->
  SmtpUtils.status_ok (strip line) = false ->
  contains "502" (strip line) = true ->
  SmtpUtils.authenticate T sender_address sender_password st =
  (Ok tt, {| email_sent := email_sent st1; error_type := error_type st1;
             inbox := rest; log := log st1; broken := broken st1 |}).
Proof.
  intros Hwd Hin Hbad H502.
  apply bind_inv_ok in Hwd as ([] & sw & Hw & Hd).
  pose proof (read_server_response_text line rest st1 Hin) as Hread.
  rewrite Hbad in Hread.
  unfold SmtpUtils.authenticate.
  rewrite (try_step _ _ _ _ _ _ Hw), (try_step _ _ _ _ _ _ Hd).
  rewrite (try_caught _ _ _ _ _ _ (ret tt) Hread); [reflexivity |].
  unfold SmtpUtils.on_auth_error. now rewrite contains_server_error, H502.
Qed.

Lemma head_differs (x y : bytes) : hd x00 x <> hd x00 y -> x <> y.
Proof. intros H E. apply H. now rewrite E. Qed.

Section Replying.
Variable g : string.
Variable reply : bytes -> string.
Hypothesis reply_ok :
  forall data, data <> b ("AUTH PLAIN" +:+ CRLF) ->
               SmtpUtils.status_ok (strip (reply data)) = true.

Lemma replying_exchange {A} (data : bytes) (k : string -> M A)
    (s : bool) (e : Z) (l : list event) :
  data <> b ("AUTH PLAIN" +:+ CRLF) ->
  (writer_write (replying g reply) data ;;
   writer_drain ;;
   r <- SmtpUtils.read_server_response ;;
   k r)
    {| email_sent := s; error_type := e; inbox := []; log := l; broken := false |}
  = k (strip (reply data))
      {| email_sent := s; error_type := e; inbox := [];
         log := l ++ [Write data]; broken := false |}.
Proof.
  intros Hd.
  pose proof (read_server_response_text (reply data) []
                {| email_sent := s; error_type := e; inbox := [Text (reply data)];
                   log := l ++ [Write data]; broken := false |} eq_refl) as Hread.
  rewrite (reply_ok data Hd) in Hread. simpl in Hread.
  unfold bind at 1 2. unfold writer_write, writer_drain. simpl.
  exact (bind_ok _ _ _ _ _ Hread).
Qed.

Lemma replying_exchange_tagged {A} (tag : Z) (data : bytes) (k : unit -> M A)
    (s : bool) (e : Z) (l : list event) :
  data <> b ("AUTH PLAIN" +:+ CRLF) ->
  (writer_write (replying g reply) data ;;
   writer_drain ;;
   x <- SmtpUtils.read_tagged tag ;;
   k x)
    {| email_sent := s; error_type := e; inbox := []; log := l; broken := false |}
  = k tt {| email_sent := s; error_type := e; inbox := [];
            log := l ++ [Write data]; broken := false |}.
Proof.
  intros Hd.
  pose proof (read_tagged_ok tag (reply data) []
                {| email_sent := s; error_type := e; inbox := [Text (reply data)];
                   log := l ++ [Write data]; broken := false |}
                eq_refl (reply_ok data Hd)) as Hread.
  simpl in Hread.
  unfold bind at 1 2. unfold writer_write, writer_drain. simpl.
  exact (bind_ok _ _ _ _ _ Hread).
Qed.

Lemma rcpt_is_not_auth (r : string) :
  encode ("RCPT TO:" +:+ r +:+ CRLF) <> b ("AUTH PLAIN" +:+ CRLF).
Proof. apply head_differs. vm_compute. discriminate. Qed.

Lemma replying_rcpt_loop (recipient_addresses : list string)
    (s : bool) (e : Z) (l : list event) :
  SmtpUtils.rcpt_loop (replying g reply) recipient_addresses
    {| email_sent := s; error_type := e; inbox := []; log := l; broken := false |}
  = (Ok tt, {| email_sent := s; error_type := e; inbox := [];
               log := l ++ map rcpt_command recipient_addresses; broken := false |}).
Proof.
  revert l. induction recipient_addresses as [|r rs IH]; intros l.
  - simpl. now rewrite app_nil_r.
  - rewrite rcpt_loop_cons.
    rewrite (replying_exchange_tagged 2 _ _ s e l (rcpt_is_not_auth r)).
    rewrite IH. simpl. now rewrite <- app_assoc.
Qed.

Lemma replying_mail_from (sender_address : string)
    (s : bool) (e : Z) (l : list event) :
  SmtpUtils.mail_from (replying g reply) sender_address
    {| email_sent := s; error_type := e; inbox := []; log := l; broken := false |}
  = (Ok tt, {| email_sent := s; error_type := e; inbox := [];
               log := l ++ [Write (encode ("MAIL FROM:" +:+ sender_address +:+ CRLF))];
               broken := false |}).
Proof.
  unfold SmtpUtils.mail_from.
  assert (Hd : encode ("MAIL FROM:" +:+ sender_address +:+ CRLF)
               <> b ("AUTH PLAIN" +:+ CRLF))
    by (apply head_differs; vm_compute; discriminate).
  pose proof (read_tagged_ok 1 _ []
                {| email_sent := s; error_type := e;
                   inbox := [Text (reply (encode ("MAIL FROM:" +:+ sender_address +:+ CRLF)))];
                   log := l ++ [Write (encode ("MAIL FROM:" +:+ sender_address +:+ CRLF))];
                   broken := false |}
                eq_refl (reply_ok _ Hd)) as Hread.
  cbn [email_sent error_type inbox log broken] in Hread.
  unfold bind at 1 2. unfold writer_write, writer_drain.
  cbn [email_sent error_type inbox log broken respond replying app].
  exact Hread.
Qed.

Lemma replying_send_data (content : string) (s : bool) (e : Z) (l : list event) :
  SmtpUtils.send_data (replying g reply) content
    {| email_sent := s; error_type := e; inbox := []; log := l; broken := false |}
  = (Ok tt, {| email_sent := s; error_type := e; inbox := [];
               log := l ++ [Write (b ("DATA" +:+ CRLF));
                            Write (encode content ++ b (CRLF +:+ "." +:+ CRLF));
                            Write (b ("QUIT" +:+ CRLF))];
               broken := false |}).
Proof.
  unfold SmtpUtils.send_data.
  rewrite replying_exchange by (apply head_differs; vm_compute; discriminate).
  rewrite replying_exchange.
  - rewrite replying_exchange by (apply head_differs; vm_compute; discriminate).
    unfold ret. now rewrite <- !app_assoc.
  - intros E.
    apply (f_equal (fun data => nth 2 (rev data) x00)) in E.
    rewrite rev_app_distr in E. vm_compute in E. discriminate.
Qed.

Hypothesis greeting_ok : SmtpUtils.status_ok (strip g) = true.
Hypothesis auth_refused :
  SmtpUtils.status_ok (strip (reply (b ("AUTH PLAIN" +:+ CRLF)))) = false.
Hypothesis auth_502 :
  contains "502" (strip (reply (b ("AUTH PLAIN" +:+ CRLF)))) = true.

(** The whole session against such a peer. *)
Lemma replying_session (sender_address sender_password : string)
    (recipient_addresses : list string) (subject body date : string)
    (custom_headers : list (string * string))
    (smtp_server : string) (smtp_port : Z) :
  let content := SmtpUtils.email_content date sender_address recipient_addresses
                   subject body custom_headers in
  SmtpUtils.session (replying g reply) sender_address sender_password
    recipient_addresses content smtp_server smtp_port start
  = (Ok tt,
     {| email_sent := true; error_type := 0; inbox := [];
        log := [Connect smtp_server smtp_port;
                Write (b ("EHLO localhost" +:+ CRLF));
                Write (b ("AUTH PLAIN" +:+ CRLF));
                Write (encode ("MAIL FROM:" +:+ sender_address +:+ CRLF))]
               ++ map rcpt_command recipient_addresses
               ++ [Write (b ("DATA" +:+ CRLF));
                   Write (encode content ++ b (CRLF +:+ "." +:+ CRLF));
                   Write (b ("QUIT" +:+ CRLF))];
        broken := false |}).
Proof.
  intros content. unfold SmtpUtils.session.
  rewrite (bind_ok (open_connection (replying g reply) smtp_server smtp_port)
             _ start _ tt eq_refl).
  (* the greeting and EHLO *)
  assert (Hehlo : SmtpUtils.ehlo (replying g reply)
                    {| email_sent := false; error_type := 0; inbox := [Text g];
                       log := [Connect smtp_server smtp_port]; broken := false |}
                  = (Ok tt, {| email_sent := false; error_type := 0; inbox := [];
                               log := [Connect smtp_server smtp_port;
                                       Write (b ("EHLO localhost" +:+ CRLF))];
                               broken := false |})).
  { unfold SmtpUtils.ehlo.
    pose proof (read_server_response_text g [] 
                  {| email_sent := false; error_type := 0; inbox := [Text g];
                     log := [Connect smtp_server smtp_port]; broken := false |}
                  eq_refl) as Hg.
    rewrite greeting_ok in Hg. simpl in Hg.
    rewrite (bind_ok _ _ _ _ _ Hg).
    rewrite replying_exchange; [reflexivity |].
    apply head_differs. vm_compute. discriminate. }
  rewrite (bind_ok _ _ _ _ _ Hehlo).
  (* AUTH PLAIN *)
  rewrite (bind_ok _ _ _ _ _
             (authenticate_502 (replying g reply) sender_address sender_password
                {| email_sent := false; error_type := 0; inbox := [];
                   log := [Connect smtp_server smtp_port;
                           Write (b ("EHLO localhost" +:+ CRLF))];
                   broken := false |}
                {| email_sent := false; error_type := 0;
                   inbox := [Text (reply (b ("AUTH PLAIN" +:+ CRLF)))];
                   log := [Connect smtp_server smtp_port;
                           Write (b ("EHLO localhost" +:+ CRLF));
                           Write (b ("AUTH PLAIN" +:+ CRLF))];
                   broken := false |}
                (reply (b ("AUTH PLAIN" +:+ CRLF))) []
                eq_refl eq_refl auth_refused auth_502)).
  cbn [email_sent error_type inbox log broken].
  (* MAIL FROM, RCPT TO *)
  rewrite (bind_ok _ _ _ _ _ (replying_mail_from sender_address _ _ _)).
  rewrite (bind_ok _ _ _ _ _ (replying_rcpt_loop recipient_addresses _ _ _)).
  (* DATA, the content, QUIT *)
  rewrite (bind_ok _ _ _ _ _ (replying_send_data content _ _ _)).
  unfold set_email_sent. cbn [email_sent error_type inbox log broken].
  now rewrite <- !app_assoc.
Qed.
End Replying.

Lemma auth_unsupported_reply_ok (data : bytes) :
  data <> b ("AUTH PLAIN" +:+ CRLF) ->
  SmtpUtils.status_ok (strip (auth_unsupported_reply data)) = true.
Proof.
  intros Hd. unfold auth_unsupported_reply.
  destruct (String.eqb_spec (string_of_list_byte data) ("AUTH PLAIN" +:+ CRLF)) as [E|E].
  - exfalso. apply Hd. unfold b. rewrite <- E.
    symmetry. apply list_byte_of_string_of_list_byte.
  - reflexivity.
Qed.

(** C7: a failure of [AUTH PLAIN] whose text contains [502] does not end
    the session: [authenticate] returns normally; and against a peer that
    answers [AUTH PLAIN] with such a failure and every other write with a
    2xx/3xx line, each line (the greeting included) within the 1024 bytes
    of one read, [send_email] returns [(True, 0)], having written [EHLO],
    [AUTH PLAIN], [MAIL FROM], one [RCPT TO] for each recipient, [DATA], the
    content and [QUIT], and no credential. *)
Theorem auth_not_implemented_is_skipped :
  (forall (T : transport) (sender_address sender_password : string)
          (st st1 : state) (line : string) (rest : list chunk),
      (writer_write T (b ("AUTH PLAIN" +:+ CRLF)) ;; writer_drain) st = (Ok tt, st1) ->
      inbox st1 = Text line :: rest ->
      SmtpUtils.status_ok (strip line) = false ->
      contains "502" (strip line) = true ->
      SmtpUtils.authenticate T sender_address sender_password st =
      (Ok tt, {| email_sent := email_sent st1; error_type := error_type st1;
                 inbox := rest; log := log st1; broken := broken st1 |}))
  /\ (forall (g : string) (reply : bytes -> string) (date : string)
             (sender_address sender_password : string)
             (recipient_addresses : list string) (email_subject email_body : string)
             (custom_headers : list (string * string))
             (smtp_server : string) (smtp_port : Z),
        one_read g ->
        (forall data, one_read (reply data)) ->
        SmtpUtils.status_ok (strip g) = true ->
        SmtpUtils.status_ok (strip (reply (b ("AUTH PLAIN" +:+ CRLF)))) = false ->
        contains "502" (strip (reply (b ("AUTH PLAIN" +:+ CRLF)))) = true ->
        (forall data, data <> b ("AUTH PLAIN" +:+ CRLF) ->
                      SmtpUtils.status_ok (strip (reply data)) = true) ->
        valid sender_address ->
        Forall valid recipient_addresses ->
        let call := SmtpUtils.send_email (replying g reply) date sender_address
                      sender_password recipient_addresses email_subject email_body
                      custom_headers smtp_server smtp_port start in
        fst call = Ok (true, 0%Z)
        /\ log (snd call) =
           [Connect smtp_server smtp_port;
            Write (b ("EHLO localhost" +:+ CRLF));
            Write (b ("AUTH PLAIN" +:+ CRLF));
            Write (encode ("MAIL FROM:" +:+ sender_address +:+ CRLF))]
           ++ map rcpt_command recipient_addresses
           ++ [Write (b ("DATA" +:+ CRLF));
               Write (encode (SmtpUtils.email_content date sender_address
                                recipient_addresses email_subject email_body
                                custom_headers)
                      ++ b (CRLF +:+ "." +:+ CRLF));
               Write (b ("QUIT" +:+ CRLF))]).
Proof.
  split.
  - intros T sender_address sender_password st st1 line rest.
    apply authenticate_502.
  - intros g reply date sender_address sender_password recipient_addresses
      email_subject email_body custom_headers smtp_server smtp_port
      _ _ Hg Hbad H502 Hok Hs Hr call; subst call.
    pose proof (replying_session g reply Hok Hg Hbad H502 sender_address
                  sender_password recipient_addresses email_subject email_body date
                  custom_headers smtp_server smtp_port) as Hrun.
    cbv zeta in Hrun.
    rewrite (send_email_session_ok (replying g reply) date sender_address
               sender_password recipient_addresses email_subject email_body
               custom_headers smtp_server smtp_port Hs Hr _ Hrun).
    split; reflexivity.
Qed.

Lemma auth_unsupported_reply_one_read (data : bytes) :
  one_read (auth_unsupported_reply data).
Proof.
  unfold one_read, auth_unsupported_reply.
  destruct (String.eqb (string_of_list_byte data) ("AUTH PLAIN" +:+ CRLF));
    vm_compute; lia.
Qed.

Lemma one_read_ready : one_read ("220 ready" +:+ CRLF).
Proof. unfold one_read. vm_compute. lia. Qed.

Lemma auth_not_implemented_is_skipped_witness :
  fst (SmtpUtils.send_email (replying ("220 ready" +:+ CRLF) auth_unsupported_reply)
         some_date "a@b.com" "secret" ["c@d.com"; "e@f.com"; "g@h.com"]
         "Hi" "Hello" [("X-Test", "1")] "127.0.0.1" 2525 start) = Ok (true, 0%Z).
Proof.
  refine (proj1 (proj2 auth_not_implemented_is_skipped
                   ("220 ready" +:+ CRLF) auth_unsupported_reply
                   some_date "a@b.com" "secret" ["c@d.com"; "e@f.com"; "g@h.com"]
                   "Hi" "Hello" [("X-Test", "1")] "127.0.0.1" 2525%Z
                   one_read_ready auth_unsupported_reply_one_read
                   eq_refl eq_refl eq_refl auth_unsupported_reply_ok
                   (proj1 valid_example_addresses)
                   (proj2 (proj2 valid_example_addresses)))).
Defined.

(** ** The client against [handle_client] *)




(** * Further properties of the code *)

(** ** What the validator accepts *)

Lemma count_char_app (c : ascii) (s t : string) :
  count_char c (s +:+ t) = count_char c s + count_char c t.
Proof.
  induction s as [|c' s IH]; [reflexivity |].
  rewrite sapp_cons. simpl. rewrite IH. lia.
Qed.

Lemma count_char_none (p : ascii -> bool) (c : ascii) (s : string) :
  p c = false -> Py.all p s = true -> count_char c s = 0.
Proof.
  intros Hc. induction s as [|c' s IH]; simpl; [reflexivity |].
  intros H. apply andb_true_iff in H as [Hc' Hs].
  destruct (Ascii.eqb_spec c' c) as [->|_]; [congruence | now apply IH].
Qed.

Lemma all_weaken (p q : ascii -> bool) (s : string) :
  (forall c, p c = true -> q c = true) -> Py.all p s = true -> Py.all q s = true.
Proof.
  intros Hpq. induction s as [|c s IH]; simpl; [reflexivity |].
  intros H. apply andb_true_iff in H as [Hc Hs].
  now rewrite (Hpq c Hc), IH.
Qed.

Lemma local_is_address_char (c : ascii) :
  Spec.local_char c = true -> address_char c = true.
Proof. intros H. unfold address_char. now rewrite H. Qed.

Lemma domain_is_address_char (c : ascii) :
  Spec.domain_char c = true -> address_char c = true.
Proof.
  unfold address_char, Spec.local_char, Spec.domain_char. intros H.
  repeat (apply orb_true_iff in H as [H|H]); rewrite H;
    rewrite ?orb_true_r; reflexivity.
Qed.

Lemma letter_is_address_char (c : ascii) :
  Spec.letter c = true -> address_char c = true.
Proof.
  unfold address_char, Spec.local_char, Spec.letter. intros H.
  repeat (apply orb_true_iff in H as [H|H]); rewrite H;
    rewrite ?orb_true_r; reflexivity.
Qed.

Lemma nonempty_length (s : string) : s <> EmptyString -> 1 <= String.length s.
Proof. destruct s; [contradiction | simpl; lia]. Qed.

Lemma address_shape (s : string) :
  Spec.address s ->
  6 <= String.length s /\ count_char "@" s = 1 /\ Py.all address_char s = true.
Proof.
  intros (l & d & t & -> & Hl1 & Hl2 & Hd1 & Hd2 & Ht1 & Ht2).
  apply nonempty_length in Hl1, Hd1.
  split; [| split].
  - rewrite !sapp_length. simpl. lia.
  - rewrite !count_char_app.
    rewrite (count_char_none Spec.local_char "@" l eq_refl Hl2).
    rewrite (count_char_none Spec.domain_char "@" d eq_refl Hd2).
    rewrite (count_char_none Spec.letter "@" t eq_refl Ht2).
    reflexivity.
  - rewrite !all_app.
    rewrite (all_weaken _ _ l local_is_address_char Hl2).
    rewrite (all_weaken _ _ d domain_is_address_char Hd2).
    rewrite (all_weaken _ _ t letter_is_address_char Ht2).
    reflexivity.
Qed.

(** X2: every string the validator accepts has at least six characters
    and exactly one ['@'], and is either made of the characters
    [[A-Za-z0-9._%+-@]] only, all of them ASCII, or such a string followed
    by one newline: the only character outside that set an accepted string
    can hold is a newline at its very end. *)
Theorem accepted_address_shape (s : string) :
  SmtpUtils.validate_email_address (PyStr s) = Ok true ->
  6 <= String.length s
  /\ count_char "@" s = 1
  /\ exists core,
       (s = core \/ s = core +:+ LF)
       /\ Py.all address_char core = true
       /\ Py.all (fun c => (ord c <? 128)%N) core = true.
Proof.
  intros H. apply validate_email_address_accepts in H.
  assert (Hascii : forall core, Py.all address_char core = true ->
                                Py.all (fun c => (ord c <? 128)%N) core = true).
  { intros core. apply all_weaken. intros c.
    destruct c as [[] [] [] [] [] [] [] []]; vm_compute; congruence. }
  destruct H as [H|(s' & -> & H)]; apply address_shape in H as (Hlen & Hat & Hall).
  - split; [exact Hlen |]. split; [exact Hat |].
    exists s. auto.
  - split; [rewrite sapp_length; lia |].
    split; [rewrite count_char_app, Hat; reflexivity |].
    exists s'. auto.
Qed.

Lemma accepted_address_shape_witness :
  6 <= String.length "a@b.cd"
  /\ count_char "@" "a@b.cd" = 1
  /\ exists core,
       ("a@b.cd" = core \/ "a@b.cd" = core +:+ LF)
       /\ Py.all address_char core = true
       /\ Py.all (fun c => (ord c <? 128)%N) core = true.
Proof. apply (accepted_address_shape "a@b.cd"). reflexivity. Defined.

(** ** The simulated client *)

Lemma client_validate_accepted (v : pyval) :
  SmtpClient.validate_email_address v = Ok (accepted v).
Proof. destruct v; reflexivity. Qed.

Lemma accepted_truthy (v : pyval) : accepted v = true -> truthy v = true.
Proof.
  destruct v as [| | |s]; simpl; try discriminate.
  destruct s; [vm_compute; discriminate | reflexivity].
Qed.

Lemma client_recipients_validate (l : list pyval) :
  SmtpClient.recipients_validate l = Ok (forallb accepted l).
Proof.
  induction l as [|v l IH]; [reflexivity |].
  simpl. rewrite client_validate_accepted, IH.
  destruct (accepted v) eqn:Ha.
  - now rewrite (accepted_truthy v Ha).
  - destruct (truthy v); reflexivity.
Qed.

Lemma utils_recipients_validate (l : list string) :
  SmtpUtils.recipients_validate l = Ok (forallb accepted (map PyStr l)).
Proof.
  induction l as [|x l IH]; [reflexivity |].
  rewrite recipients_validate_cons, IH. simpl.
  destruct (match_anchored SmtpUtils.EMAIL_REGEX x); reflexivity.
Qed.

(** X3: [send_email] of [smtp_client.py] never raises, whatever the values
    of the sender and of the recipients are: it returns [(True, 0)] when the
    sender and every recipient are strings the validator accepts,
    [(False, 1)] when the sender is not, and [(False, 2)] otherwise. *)
Theorem simulated_send_email (sender_address sender_password : pyval)
    (recipient_addresses : list pyval) (email_subject email_body : string)
    (custom_headers : list (string * string)) (smtp_server : string) (smtp_port : Z) :
  SmtpClient.send_email sender_address sender_password recipient_addresses
    email_subject email_body custom_headers smtp_server smtp_port
  = Ok (if accepted sender_address
        then if forallb accepted recipient_addresses then (true, 0%Z) else (false, 2%Z)
        else (false, 1%Z)).
Proof.
  unfold SmtpClient.send_email.
  rewrite client_validate_accepted, client_recipients_validate.
  destruct (accepted sender_address) eqn:Ha.
  - rewrite (accepted_truthy _ Ha). simpl.
    destruct (forallb accepted recipient_addresses); reflexivity.
  - destruct (truthy sender_address); reflexivity.
Qed.

(** X4: the simulated client and the real one reject the same envelopes in
    the same way: when [send_email] of [smtp_client.py] returns [(False, c)],
    [send_email] of [smtp_utils.py] returns [(False, c)] too and makes no
    call on the transport; when the former returns [(True, 0)], the latter
    goes on to connect. *)
Theorem simulated_and_real_agree (T : transport) (date : string)
    (sender_address sender_password : string) (recipient_addresses : list string)
    (email_subject email_body : string) (custom_headers : list (string * string))
    (smtp_server : string) (smtp_port : Z) :
  let simulated :=
    SmtpClient.send_email (PyStr sender_address) (PyStr sender_password)
      (map PyStr recipient_addresses) email_subject email_body custom_headers
      smtp_server smtp_port in
  let real :=
    SmtpUtils.send_email T date sender_address sender_password recipient_addresses
      email_subject email_body custom_headers smtp_server smtp_port start in
  (simulated = Ok (true, 0%Z) \/ simulated = Ok (false, 1%Z)
   \/ simulated = Ok (false, 2%Z))
  /\ (forall class, simulated = Ok (false, class) -> real = (Ok (false, class), start))
  /\ (simulated = Ok (true, 0%Z) ->
      exists evs, log (snd real) = Connect smtp_server smtp_port :: evs).
Proof.
  intros simulated real. subst simulated real.
  unfold SmtpClient.send_email.
  rewrite client_validate_accepted, client_recipients_validate.
  destruct (accepted (PyStr sender_address)) eqn:Ha.
  - rewrite (accepted_truthy _ Ha). simpl negb. cbv iota.
    assert (Hs : valid sender_address).
    { unfold valid. simpl. simpl in Ha. now rewrite Ha. }
    destruct (forallb accepted (map PyStr recipient_addresses)) eqn:Hr.
    + split; [auto |]. split; [discriminate |]. intros _.
      assert (Hv : Forall valid recipient_addresses).
      { apply recipients_validate_all. now rewrite utils_recipients_validate, Hr. }
      rewrite (send_email_log T date sender_address sender_password
                 recipient_addresses email_subject email_body custom_headers
                 smtp_server smtp_port Hs Hv).
      destruct (session_outcome T sender_address sender_password recipient_addresses
                  (SmtpUtils.email_content date sender_address recipient_addresses
                     email_subject email_body custom_headers)
                  smtp_server smtp_port start) as [(evs & L & _) _].
      exists evs. exact L.
    + split; [auto |]. split; [| discriminate].
      intros class [= <-].
      unfold valid in Hs.
      unfold SmtpUtils.send_email, bind, lift, set_email_sent, set_error_type.
      now rewrite Hs, utils_recipients_validate, Hr.
  - assert (Hs : SmtpUtils.validate_email_address (PyStr sender_address) = Ok false).
    { simpl. simpl in Ha. now rewrite Ha. }
    assert (E : (if negb (truthy (PyStr sender_address))
                 then Ok (false, 1%Z)
                 else Ok (false, 1%Z)) = @Ok (bool * Z) (false, 1%Z))
      by (destruct (negb (truthy (PyStr sender_address))); reflexivity).
    rewrite E. split; [auto |]. split; [| discriminate].
    intros class [= <-].
    unfold SmtpUtils.send_email, bind, lift, set_email_sent, set_error_type.
    now rewrite Hs.
Qed.

(** ** The results of [send_email] and the answers of [main] *)

Lemma keeps_type_ret {A} (a : A) : keeps_type (ret a).
Proof. intros st. reflexivity. Qed.

Lemma keeps_type_raise {A} (e : exn) : keeps_type (@raise A e).
Proof. intros st. reflexivity. Qed.

Lemma keeps_type_bind {A B} (m : M A) (k : A -> M B) :
  keeps_type m -> (forall a, keeps_type (k a)) -> keeps_type (bind m k).
Proof.
  intros Hm Hk st. specialize (Hm st). unfold bind.
  destruct (m st) as [[a|e] st1]; simpl in *; [| exact Hm].
  now rewrite (Hk a st1).
Qed.

Lemma keeps_type_try_except {A} (body : M A) (handler : exn -> option (M A)) :
  keeps_type body ->
  (forall e h, handler e = Some h -> keeps_type h) ->
  keeps_type (try_except body handler).
Proof.
  intros Hb Hh st. specialize (Hb st). unfold try_except.
  destruct (body st) as [[a|e] st1]; simpl in *; [exact Hb |].
  destruct (handler e) as [h|] eqn:Eh; [| exact Hb].
  now rewrite (Hh e h Eh st1).
Qed.

Lemma keeps_type_writer_write (T : transport) (data : bytes) :
  keeps_type (writer_write T data).
Proof. intros st. reflexivity. Qed.

Lemma keeps_type_writer_drain : keeps_type writer_drain.
Proof. intros st. unfold writer_drain. destruct (broken st); reflexivity. Qed.

Lemma keeps_type_read_server_response : keeps_type SmtpUtils.read_server_response.
Proof.
  unfold SmtpUtils.read_server_response. apply keeps_type_bind.
  - intros st. unfold reader_read_decode.
    destruct (inbox st) as [|[line|e] rest]; reflexivity.
  - intros data. destruct (negb (SmtpUtils.status_ok (strip data)));
      [apply keeps_type_raise | apply keeps_type_ret].
Qed.

Lemma keeps_type_exchange {A} (T : transport) (data : bytes) (k : string -> M A) :
  (forall r, keeps_type (k r)) ->
  keeps_type (writer_write T data ;; writer_drain ;;
              r <- SmtpUtils.read_server_response ;; k r).
Proof.
  intros Hk.
  apply keeps_type_bind; [apply keeps_type_writer_write | intros _].
  apply keeps_type_bind; [apply keeps_type_writer_drain | intros _].
  apply keeps_type_bind; [apply keeps_type_read_server_response | exact Hk].
Qed.

Lemma keeps_type_authenticate (T : transport) (sender_address sender_password : string) :
  keeps_type (SmtpUtils.authenticate T sender_address sender_password).
Proof.
  unfold SmtpUtils.authenticate. apply keeps_type_try_except.
  - apply keeps_type_exchange. intros auth_response.
    destruct (startswith auth_response "334"); [| apply keeps_type_ret].
    apply keeps_type_exchange. intros _. apply keeps_type_ret.
  - intros [msg|e] h [= <-].
    destruct (contains "502" msg); [apply keeps_type_ret | apply keeps_type_raise].
Qed.

Lemma keeps_type_ok_of {A} (m : M A) : keeps_type m -> keeps_type_ok m.
Proof. intros H st a st' E. specialize (H st). now rewrite E in H. Qed.

Lemma keeps_type_ok_bind {A B} (m : M A) (k : A -> M B) :
  keeps_type_ok m -> (forall a, keeps_type_ok (k a)) -> keeps_type_ok (bind m k).
Proof.
  intros Hm Hk st y st' E.
  apply bind_inv_ok in E as (a & st1 & E1 & E2).
  rewrite (Hk a st1 y st' E2). exact (Hm st a st1 E1).
Qed.

Lemma keeps_type_ok_read_tagged (tag : Z) : keeps_type_ok (SmtpUtils.read_tagged tag).
Proof.
  intros st a st' E. unfold SmtpUtils.read_tagged, try_except, bind in E.
  pose proof (keeps_type_read_server_response st) as H.
  destruct (SmtpUtils.read_server_response st) as [[r|[msg|e]] s1];
    simpl in *; try discriminate.
  injection E as _ <-. exact H.
Qed.

Lemma keeps_type_ok_rcpt_loop (T : transport) (recipient_addresses : list string) :
  keeps_type_ok (SmtpUtils.rcpt_loop T recipient_addresses).
Proof.
  induction recipient_addresses as [|r l IH]; simpl.
  - apply keeps_type_ok_of, keeps_type_ret.
  - apply keeps_type_ok_bind;
      [apply keeps_type_ok_of, keeps_type_writer_write | intros _].
    apply keeps_type_ok_bind;
      [apply keeps_type_ok_of, keeps_type_writer_drain | intros _].
    apply keeps_type_ok_bind; [apply keeps_type_ok_read_tagged | intros _].
    exact IH.
Qed.

(** A session that ends normally has not touched [error_type]. *)
Lemma keeps_type_ok_session (T : transport) (sender_address sender_password : string)
    (recipient_addresses : list string) (content : string)
    (smtp_server : string) (smtp_port : Z) :
  keeps_type_ok (SmtpUtils.session T sender_address sender_password
                   recipient_addresses content smtp_server smtp_port).
Proof.
  unfold SmtpUtils.session.
  apply keeps_type_ok_bind; [apply keeps_type_ok_of | intros _].
  { intros st. unfold open_connection. destruct (accepts T); reflexivity. }
  apply keeps_type_ok_bind; [apply keeps_type_ok_of | intros _].
  { unfold SmtpUtils.ehlo.
    apply keeps_type_bind; [apply keeps_type_read_server_response | intros _].
    apply keeps_type_exchange. intros _. apply keeps_type_ret. }
  apply keeps_type_ok_bind;
    [apply keeps_type_ok_of, keeps_type_authenticate | intros _].
  apply keeps_type_ok_bind; [| intros _].
  { unfold SmtpUtils.mail_from.
    apply keeps_type_ok_bind;
      [apply keeps_type_ok_of, keeps_type_writer_write | intros _].
    apply keeps_type_ok_bind;
      [apply keeps_type_ok_of, keeps_type_writer_drain | intros _].
    apply keeps_type_ok_read_tagged. }
  apply keeps_type_ok_bind; [apply keeps_type_ok_rcpt_loop | intros _].
  apply keeps_type_ok_bind; [apply keeps_type_ok_of | intros _].
  { unfold SmtpUtils.send_data.
    apply keeps_type_exchange. intros _.
    apply keeps_type_exchange. intros _.
    apply keeps_type_exchange. intros _. apply keeps_type_ret. }
  apply keeps_type_ok_of. intros st. reflexivity.
Qed.

(** The possible results of [send_email]. *)
Lemma send_email_results (T : transport) (date : string)
    (sender_address sender_password : string) (recipient_addresses : list string)
    (email_subject email_body : string) (custom_headers : list (string * string))
    (smtp_server : string) (smtp_port : Z) :
  let outcome :=
    fst (SmtpUtils.send_email T date sender_address sender_password
           recipient_addresses email_subject email_body custom_headers
           smtp_server smtp_port start) in
  outcome = Ok (true, 0%Z) \/ outcome = Ok (false, 0%Z) \/ outcome = Ok (false, 1%Z)
  \/ outcome = Ok (false, 2%Z) \/ outcome = Ok (false, 3%Z).
Proof.
  intros outcome; subst outcome.
  destruct (validate_email_address_bool sender_address) as [Hs|Hs].
  - destruct (recipients_validate_bool recipient_addresses) as [Hr|Hr].
    + apply recipients_validate_all in Hr.
      pose proof (session_outcome T sender_address sender_password recipient_addresses
                    (SmtpUtils.email_content date sender_address recipient_addresses
                       email_subject email_body custom_headers)
                    smtp_server smtp_port start) as [_ Hout].
      pose proof (tagging_session T sender_address sender_password recipient_addresses
                    (SmtpUtils.email_content date sender_address recipient_addresses
                       email_subject email_body custom_headers)
                    smtp_server smtp_port start) as Htag.
      destruct (SmtpUtils.session T sender_address sender_password recipient_addresses
                  (SmtpUtils.email_content date sender_address recipient_addresses
                     email_subject email_body custom_headers)
                  smtp_server smtp_port start) as [[[]|[msg|e]] st'] eqn:H;
        simpl in Hout, Htag.
      * rewrite (send_email_session_ok T date sender_address sender_password
                   recipient_addresses email_subject email_body custom_headers
                   smtp_server smtp_port Hs Hr st' H).
        simpl. rewrite Hout.
        rewrite (keeps_type_ok_session _ _ _ _ _ _ _ _ _ _ H). now left.
      * destruct (send_email_session_protocol_error T date sender_address
                    sender_password recipient_addresses email_subject email_body
                    custom_headers smtp_server smtp_port Hs Hr msg st' H) as [-> _].
        destruct Hout as [_ ->]. simpl.
        destruct Htag as [->|[->| ->]]; simpl; auto.
        destruct (contains "501" msg); auto.
        destruct (contains "550" msg); auto.
      * destruct (send_email_session_other_error T date sender_address
                    sender_password recipient_addresses email_subject email_body
                    custom_headers smtp_server smtp_port Hs Hr e st' H) as [-> _].
        destruct Hout as [_ ->]. simpl. auto 6.
    + unfold valid in Hs.
      unfold SmtpUtils.send_email, bind, lift, set_email_sent, set_error_type.
      rewrite Hs, Hr. simpl. auto 6.
  - unfold SmtpUtils.send_email, bind, lift, set_email_sent, set_error_type.
    rewrite Hs. simpl. auto.
Qed.

(** X5: on an envelope of strings, and with a peer that at every read has
    sent something or has closed the connection, [send_email] of
    [smtp_utils.py] lets no exception escape: it returns [(True, 0)] or
    [(False, c)] with [c] one of 0, 1, 2, 3; a message that was sent never
    carries an error type, and no error type outside 0..3 is returned. *)
Theorem send_email_result_range (T : transport) (date : string)
    (sender_address sender_password : string) (recipient_addresses : list string)
    (email_subject email_body : string) (custom_headers : list (string * string))
    (smtp_server : string) (smtp_port : Z) :
  exists (sent : bool) (class : Z),
    fst (SmtpUtils.send_email T date sender_address sender_password
           recipient_addresses email_subject email_body custom_headers
           smtp_server smtp_port start) = Ok (sent, class)
    /\ (0 <= class <= 3)%Z
    /\ (sent = true -> class = 0%Z).
Proof.
  destruct (send_email_results T date sender_address sender_password
              recipient_addresses email_subject email_body custom_headers
              smtp_server smtp_port) as [H|[H|[H|[H|H]]]];
    rewrite H; eexists _, _; (split; [reflexivity |]); split; (lia || congruence).
Qed.


(** ** The order of the commands *)

Lemma logs_weaken {A} (F G : list event -> Prop) (m : M A) :
  (forall ws, F ws -> G ws) -> logs F m -> logs G m.
Proof. intros HFG Hm st. destruct (Hm st) as (ws & Hw & L). eauto. Qed.

Lemma logs_silent {A} (m : M A) :
  (forall st, log (snd (m st)) = log st) -> logs (eq []) m.
Proof. intros H st. exists []. split; [reflexivity | now rewrite H, app_nil_r]. Qed.

Lemma logs_writer_write (T : transport) (data : bytes) :
  logs (eq [Write data]) (writer_write T data).
Proof. intros st. exists [Write data]. split; reflexivity. Qed.

Lemma logs_bind {A B} (F G : list event -> Prop) (m : M A) (k : A -> M B) :
  logs F m -> (forall a, logs G (k a)) ->
  logs (fun ws => F ws \/ exists w1 w2, F w1 /\ G w2 /\ ws = w1 ++ w2) (bind m k).
Proof.
  intros Hm Hk st. destruct (Hm st) as (w1 & H1 & L1). unfold bind.
  destruct (m st) as [[a|e] st1]; simpl in *.
  - destruct (Hk a st1) as (w2 & H2 & L2).
    exists (w1 ++ w2). split; [right; eauto |].
    now rewrite L2, L1, app_assoc.
  - exists w1. split; [now left | exact L1].
Qed.

Lemma logs_try_except {A} (F : list event -> Prop) (body : M A)
    (handler : exn -> option (M A)) :
  logs F body ->
  (forall e h st, handler e = Some h -> log (snd (h st)) = log st) ->
  logs F (try_except body handler).
Proof.
  intros Hb Hh st. destruct (Hb st) as (ws & Hw & L). unfold try_except.
  destruct (body st) as [[a|e] st1]; simpl in *; [eauto |].
  destruct (handler e) as [h|] eqn:Eh; [| eauto].
  exists ws. split; [exact Hw |]. now rewrite (Hh e h st1 Eh).
Qed.

Lemma writer_drain_log (st : state) : log (snd (writer_drain st)) = log st.
Proof. unfold writer_drain. destruct (broken st); reflexivity. Qed.

(** [authenticate] writes [AUTH PLAIN], and the credential line or
    nothing after it. *)
Lemma authenticate_log (T : transport) (sender_address sender_password : string) :
  logs (fun ws =>
          ws = [Write (b ("AUTH PLAIN" +:+ CRLF))]
          \/ ws = [Write (b ("AUTH PLAIN" +:+ CRLF));
                   Write (credential_line sender_address sender_password)])
       (SmtpUtils.authenticate T sender_address sender_password).
Proof.
  unfold SmtpUtils.authenticate. apply logs_try_except.
  - eapply logs_weaken; [| apply logs_bind; [apply logs_writer_write | intros _]].
    2:{ apply logs_bind; [apply logs_silent, writer_drain_log | intros _].
        apply logs_bind; [apply logs_silent, read_server_response_log | intros r].
        instantiate (1 := fun ws =>
          ws = [] \/ ws = [Write (credential_line sender_address sender_password)]).
        destruct (startswith r "334").
        - eapply logs_weaken;
            [| apply logs_bind; [apply logs_writer_write | intros _]].
          2:{ apply logs_bind; [apply logs_silent, writer_drain_log | intros _].
              apply logs_bind;
                [apply logs_silent, read_server_response_log | intros _].
              apply logs_silent. reflexivity. }
          cbv beta. intros ws [<-|(w1 & w2 & <- & Hw2 & ->)]; [now right |].
          right.
          destruct Hw2 as [<-|(? & ? & <- & Hw3 & ->)]; [reflexivity |].
          destruct Hw3 as [<-|(? & ? & <- & <- & ->)]; reflexivity.
        - apply logs_weaken with (F := eq []); [intros ws <-; now left |].
          apply logs_silent. reflexivity. }
    cbv beta. intros ws [<-|(w1 & w2 & <- & Hw2 & ->)]; [now left |].
    destruct Hw2 as [<-|(? & ? & <- & Hw3 & ->)]; [now left |].
    destruct Hw3 as [<-|(? & ? & <- & [->| ->] & ->)]; [now left | now left | now right].
  - intros [msg|e] h st [= <-].
    destruct (contains "502" msg); reflexivity.
Qed.

Lemma writes_of_logs {A} (F : list event -> Prop) (m : M A) : logs F m -> writes F m.
Proof.
  intros Hm st. destruct (Hm st) as (ws & Hw & L).
  exists ws, ws. repeat split; auto.
Qed.

Lemma writes_weaken {A} (F G : list event -> Prop) (m : M A) :
  (forall ws, F ws -> G ws) -> writes F m -> writes G m.
Proof.
  intros HFG Hm st. destruct (Hm st) as (ws & pre & Hw & Hp & L & Hok).
  exists ws, pre. auto.
Qed.

Lemma writes_bind {A B} (F G : list event -> Prop) (m : M A) (k : A -> M B) :
  writes F m -> (forall a, writes G (k a)) -> (exists w, G w) ->
  writes (fun ws => exists w1 w2, F w1 /\ G w2 /\ ws = w1 ++ w2) (bind m k).
Proof.
  intros Hm Hk (w & Hw) st.
  destruct (Hm st) as (w1 & p1 & H1 & P1 & L1 & O1). unfold bind.
  destruct (m st) as [[a|e] st1]; simpl in *.
  - rewrite (O1 a eq_refl) in L1.
    destruct (Hk a st1) as (w2 & p2 & H2 & P2 & L2 & O2).
    exists (w1 ++ w2), (w1 ++ p2). split; [eauto |].
    split; [now apply prefix_app |].
    split; [now rewrite L2, L1, app_assoc |].
    intros y Hy. now rewrite (O2 y Hy).
  - exists (w1 ++ w), p1. split; [eauto |].
    split; [now apply prefix_app_r |].
    split; [exact L1 | discriminate].
Qed.

Lemma writes_bind_eq {A B} (w1 w2 : list event) (m : M A) (k : A -> M B) :
  writes (eq w1) m -> (forall a, writes (eq w2) (k a)) ->
  writes (eq (w1 ++ w2)) (bind m k).
Proof.
  intros Hm Hk.
  apply writes_weaken with
    (F := fun ws => exists v1 v2, w1 = v1 /\ w2 = v2 /\ ws = v1 ++ v2).
  - intros ws (v1 & v2 & <- & <- & ->). reflexivity.
  - apply writes_bind; eauto.
Qed.

Lemma writes_silent {A} (m : M A) :
  (forall st, log (snd (m st)) = log st) -> writes (eq []) m.
Proof. intros H. now apply writes_of_logs, logs_silent. Qed.

Lemma writes_exchange {A} (T : transport) (data : bytes) (w : list event)
    (k : string -> M A) :
  (forall r, writes (eq w) (k r)) ->
  writes (eq (Write data :: w))
    (writer_write T data ;; writer_drain ;; r <- SmtpUtils.read_server_response ;; k r).
Proof.
  intros Hk.
  apply (writes_bind_eq [Write data] w);
    [apply writes_of_logs, logs_writer_write | intros _].
  apply (writes_bind_eq [] w); [apply writes_silent, writer_drain_log | intros _].
  apply (writes_bind_eq [] w);
    [apply writes_silent, read_server_response_log | exact Hk].
Qed.

Lemma writes_exchange_tagged (T : transport) (data : bytes) (tag : Z) :
  writes (eq [Write data])
    (writer_write T data ;; writer_drain ;; SmtpUtils.read_tagged tag).
Proof.
  apply (writes_bind_eq [Write data] []);
    [apply writes_of_logs, logs_writer_write | intros _].
  apply (writes_bind_eq [] []); [apply writes_silent, writer_drain_log | intros _].
  apply writes_silent, read_tagged_log.
Qed.

Lemma writes_rcpt_loop (T : transport) (recipient_addresses : list string) :
  writes (eq (map rcpt_command recipient_addresses))
    (SmtpUtils.rcpt_loop T recipient_addresses).
Proof.
  induction recipient_addresses as [|r l IH].
  - apply writes_silent. reflexivity.
  - rewrite rcpt_loop_cons.
    apply (writes_bind_eq [rcpt_command r] (map rcpt_command l));
      [apply writes_of_logs, logs_writer_write | intros _].
    apply (writes_bind_eq [] (map rcpt_command l));
      [apply writes_silent, writer_drain_log | intros _].
    apply (writes_bind_eq [] (map rcpt_command l));
      [apply writes_silent, read_tagged_log | intros _].
    exact IH.
Qed.

Lemma writes_ret {A} (a : A) : writes (eq []) (ret a).
Proof. apply writes_silent. reflexivity. Qed.

(** The calls of a session are a beginning of the complete script, with or
    without the credential line, and the whole of it when the session ends
    normally. *)
Lemma writes_session (T : transport) (sender_address sender_password : string)
    (recipient_addresses : list string) (content : string)
    (smtp_server : string) (smtp_port : Z) :
  writes (fun ws =>
            exists with_credential,
              ws = command_script with_credential sender_address sender_password
                     recipient_addresses content smtp_server smtp_port)
    (SmtpUtils.session T sender_address sender_password recipient_addresses
       content smtp_server smtp_port).
Proof.
  unfold SmtpUtils.session.
  set (tail := [Write (encode ("MAIL FROM:" +:+ sender_address +:+ CRLF))]
               ++ map rcpt_command recipient_addresses
               ++ [Write (b ("DATA" +:+ CRLF));
                   Write (encode content ++ b (CRLF +:+ "." +:+ CRLF));
                   Write (b ("QUIT" +:+ CRLF))] ++ []).
  assert (Htail : writes (eq tail)
            (SmtpUtils.mail_from T sender_address ;;
             SmtpUtils.rcpt_loop T recipient_addresses ;;
             SmtpUtils.send_data T content ;;
             set_email_sent true)).
  { apply writes_bind_eq; [apply writes_exchange_tagged | intros _].
    apply writes_bind_eq; [apply writes_rcpt_loop | intros _].
    apply writes_bind_eq; [| intros _; apply writes_silent; reflexivity].
    unfold SmtpUtils.send_data.
    apply writes_exchange. intros _.
    apply writes_exchange. intros _.
    apply writes_exchange. intros _. apply writes_ret. }
  assert (Hauth : writes
            (fun ws => exists w1 w2,
               (w1 = [Write (b ("AUTH PLAIN" +:+ CRLF))]
                \/ w1 = [Write (b ("AUTH PLAIN" +:+ CRLF));
                         Write (credential_line sender_address sender_password)])
               /\ tail = w2 /\ ws = w1 ++ w2)
            (SmtpUtils.authenticate T sender_address sender_password ;;
             SmtpUtils.mail_from T sender_address ;;
             SmtpUtils.rcpt_loop T recipient_addresses ;;
             SmtpUtils.send_data T content ;;
             set_email_sent true)).
  { apply writes_bind; [apply writes_of_logs, authenticate_log | | eauto].
    intros _. exact Htail. }
  assert (Hehlo : writes (eq [Write (b ("EHLO localhost" +:+ CRLF))])
                    (SmtpUtils.ehlo T)).
  { unfold SmtpUtils.ehlo.
    apply (writes_bind_eq [] [Write (b ("EHLO localhost" +:+ CRLF))]);
      [apply writes_silent, read_server_response_log | intros _].
    apply writes_exchange. intros _. apply writes_ret. }
  assert (Hopen : writes (eq [Connect smtp_server smtp_port])
                    (open_connection T smtp_server smtp_port)).
  { apply writes_of_logs. intros st.
    exists [Connect smtp_server smtp_port]. split; [reflexivity |].
    unfold open_connection. destruct (accepts T); reflexivity. }
  pose proof (writes_bind _ _ _ _ Hehlo (fun _ => Hauth)) as Hrest.
  pose proof (fun H => writes_bind _ _ _ _ Hopen (fun _ => Hrest H)) as Hall.
  eapply writes_weaken; [| apply Hall].
  - cbv beta.
    intros ws (w0 & w' & <- & (w1 & w2 & <- & (w3 & w4 & Hw3 & <- & ->) & ->) & ->).
    destruct Hw3 as [->| ->]; [exists false | exists true];
      unfold command_script, tail; simpl; now rewrite ?app_nil_r.
  - exists ([Write (b ("AUTH PLAIN" +:+ CRLF))] ++ tail). eauto 6.
  - exists ([Write (b ("EHLO localhost" +:+ CRLF))]
            ++ [Write (b ("AUTH PLAIN" +:+ CRLF))] ++ tail).
    exists [Write (b ("EHLO localhost" +:+ CRLF))],
           ([Write (b ("AUTH PLAIN" +:+ CRLF))] ++ tail).
    split; [reflexivity |]. split; [eauto 6 | reflexivity].
Qed.

(** X7: the calls [send_email] makes on the transport are always a
    beginning of the fixed sequence connect, [EHLO], [AUTH PLAIN], the
    credential line (only after a 334), [MAIL FROM], one [RCPT TO] for each
    recipient in the order of the list, [DATA], the content, [QUIT]: no
    command is skipped or reordered; and when it returns [sent = True] the
    whole sequence was written. *)
Theorem commands_in_order (T : transport) (date : string)
    (sender_address sender_password : string) (recipient_addresses : list string)
    (email_subject email_body : string) (custom_headers : list (string * string))
    (smtp_server : string) (smtp_port : Z) :
  let call := SmtpUtils.send_email T date sender_address sender_password
                recipient_addresses email_subject email_body custom_headers
                smtp_server smtp_port start in
  exists with_credential,
    let script :=
      command_script with_credential sender_address sender_password
        recipient_addresses
        (SmtpUtils.email_content date sender_address recipient_addresses
           email_subject email_body custom_headers)
        smtp_server smtp_port in
    log (snd call) `prefix_of` script
    /\ (forall class, fst call = Ok (true, class) -> log (snd call) = script).
Proof.
  intros call; subst call.
  destruct (validate_email_address_bool sender_address) as [Hs|Hs].
  - destruct (recipients_validate_bool recipient_addresses) as [Hr|Hr].
    + apply recipients_validate_all in Hr.
      set (content := SmtpUtils.email_content date sender_address recipient_addresses
                        email_subject email_body custom_headers).
      destruct (writes_session T sender_address sender_password recipient_addresses
                  content smtp_server smtp_port start)
        as (ws & pre & (c & ->) & Hp & L & Hok).
      pose proof (session_outcome T sender_address sender_password recipient_addresses
                    content smtp_server smtp_port start) as [_ Hout].
      exists c. cbv zeta.
      rewrite (send_email_log T date sender_address sender_password recipient_addresses
                 email_subject email_body custom_headers smtp_server smtp_port Hs Hr).
      fold content. rewrite L. simpl. split; [exact Hp |].
      intros class Hcall.
      destruct (SmtpUtils.session T sender_address sender_password recipient_addresses
                  content smtp_server smtp_port start) as [[[]|[msg|e]] st'] eqn:H;
        simpl in Hout.
      * now rewrite (Hok tt eq_refl).
      * destruct (send_email_session_protocol_error T date sender_address
                    sender_password recipient_addresses email_subject email_body
                    custom_headers smtp_server smtp_port Hs Hr msg st' H) as [E _].
        rewrite E in Hcall. destruct Hout as [_ Hsent]. simpl in Hsent.
        rewrite Hsent in Hcall. discriminate.
      * destruct (send_email_session_other_error T date sender_address
                    sender_password recipient_addresses email_subject email_body
                    custom_headers smtp_server smtp_port Hs Hr e st' H) as [E _].
        rewrite E in Hcall. destruct Hout as [_ Hsent]. simpl in Hsent.
        rewrite Hsent in Hcall. discriminate.
    + exists false. cbv zeta. unfold valid in Hs.
      unfold SmtpUtils.send_email, bind, lift, set_email_sent, set_error_type.
      rewrite Hs, Hr. simpl. split; [apply prefix_nil | discriminate].
  - exists false. cbv zeta.
    unfold SmtpUtils.send_email, bind, lift, set_email_sent, set_error_type.
    rewrite Hs. simpl. split; [apply prefix_nil | discriminate].
Qed.

(** ** A peer that closes the connection or refuses the credentials *)

(** X8: when the peer accepts the connection and closes it without a
    greeting, [send_email] with valid addresses returns [(False, 0)]: the
    empty read is taken as a server error of the general kind; only the
    connection was made and no command was written. *)
Theorem closed_without_greeting (T : transport) (date : string)
    (sender_address sender_password : string) (recipient_addresses : list string)
    (email_subject email_body : string) (custom_headers : list (string * string))
    (smtp_server : string) (smtp_port : Z) :
  accepts T = true ->
  greeting T = [] ->
  valid sender_address ->
  Forall valid recipient_addresses ->
  let call := SmtpUtils.send_email T date sender_address sender_password
                recipient_addresses email_subject email_body custom_headers
                smtp_server smtp_port start in
  fst call = Ok (false, 0%Z) /\ log (snd call) = [Connect smtp_server smtp_port].
Proof.
  intros Hacc Hgreet Hs Hr call; subst call.
  assert (Hrun :
    SmtpUtils.session T sender_address sender_password recipient_addresses
      (SmtpUtils.email_content date sender_address recipient_addresses
         email_subject email_body custom_headers)
      smtp_server smtp_port start
    = (Raise (SMTPClientError "Error del servidor: "),
       {| email_sent := false; error_type := 0; inbox := [];
          log := [Connect smtp_server smtp_port]; broken := false |})).
  { unfold SmtpUtils.session.
    assert (Hopen : open_connection T smtp_server smtp_port start
                    = (Ok tt, {| email_sent := false; error_type := 0; inbox := [];
                                 log := [Connect smtp_server smtp_port];
                                 broken := false |})).
    { unfold open_connection. rewrite Hacc, Hgreet. reflexivity. }
    rewrite (bind_ok _ _ _ _ _ Hopen).
    apply bind_raise. unfold SmtpUtils.ehlo.
    apply bind_raise. now apply read_server_response_eof. }
  destruct (send_email_session_protocol_error T date sender_address sender_password
              recipient_addresses email_subject email_body custom_headers
              smtp_server smtp_port Hs Hr _ _ Hrun) as [E L].
  split; [rewrite E; reflexivity | rewrite L; reflexivity].
Qed.

Lemma closed_without_greeting_witness :
  fst (SmtpUtils.send_email hangs_up some_date "a@b.com" "secret" ["c@d.com"]
         "Hi" "Hello" [] "127.0.0.1" 2525 start) = Ok (false, 0%Z)
  /\ log (snd (SmtpUtils.send_email hangs_up some_date "a@b.com" "secret" ["c@d.com"]
                 "Hi" "Hello" [] "127.0.0.1" 2525 start))
     = [Connect "127.0.0.1" 2525].
Proof.
  apply (closed_without_greeting hangs_up some_date "a@b.com" "secret" ["c@d.com"]
           "Hi" "Hello" [] "127.0.0.1" 2525%Z eq_refl eq_refl).
  - reflexivity.
  - repeat constructor.
Defined.

(** A failure of [AUTH PLAIN] whose text does not contain [502] is raised
    again. *)
Lemma authenticate_refused (T : transport) (sender_address sender_password : string)
    (st st1 : state) (line : string) (rest : list chunk) :
  (writer_write T (b ("AUTH PLAIN" +:+ CRLF)) ;; writer_drain) st = (Ok tt, st1) ->
  inbox st1 = Text line :: rest ->
  SmtpUtils.status_ok (strip line) = false ->
  contains "502" (strip line) = false ->
  SmtpUtils.authenticate T sender_address sender_password st =
  (Raise (SMTPClientError ("Error del servidor: " +:+ strip line)),
   {| email_sent := email_sent st1; error_type := error_type st1;
      inbox := rest; log := log st1; broken := broken st1 |}).
Proof.
  intros Hwd Hin Hbad H502.
  apply bind_inv_ok in Hwd as ([] & sw & Hw & Hd).
  pose proof (read_server_response_text line rest st1 Hin) as Hread.
  rewrite Hbad in Hread.
  unfold SmtpUtils.authenticate.
  rewrite (try_step _ _ _ _ _ _ Hw), (try_step _ _ _ _ _ _ Hd).
  rewrite (try_caught _ _ _ _ _ _
             (raise (SMTPClientError ("Error del servidor: " +:+ strip line))) Hread);
    [reflexivity |].
  unfold SmtpUtils.on_auth_error. now rewrite contains_server_error, H502.
Qed.

(** X9: when the peer answers the greeting and [EHLO] with a 2xx/3xx line
    and [AUTH PLAIN] with a failure whose text does not contain [502], each
    of the three lines within the 1024 bytes of one read, the
    session ends there: [send_email] returns [sent = False], with error
    type 1 when that text contains [501], else 2 when it contains [550],
    else 0; nothing is written after [AUTH PLAIN], so neither the
    credentials nor the message leave the client. *)
Theorem auth_refusal_ends_session (g : string) (reply : bytes -> string)
    (date : string) (sender_address sender_password : string)
    (recipient_addresses : list string) (email_subject email_body : string)
    (custom_headers : list (string * string))
    (smtp_server : string) (smtp_port : Z) :
  one_read g ->
  one_read (reply (b ("EHLO localhost" +:+ CRLF))) ->
  one_read (reply (b ("AUTH PLAIN" +:+ CRLF))) ->
  SmtpUtils.status_ok (strip g) = true ->
  SmtpUtils.status_ok (strip (reply (b ("EHLO localhost" +:+ CRLF)))) = true ->
  SmtpUtils.status_ok (strip (reply (b ("AUTH PLAIN" +:+ CRLF)))) = false ->
  contains "502" (strip (reply (b ("AUTH PLAIN" +:+ CRLF)))) = false ->
  valid sender_address ->
  Forall valid recipient_addresses ->
  let call := SmtpUtils.send_email (replying g reply) date sender_address
                sender_password recipient_addresses email_subject email_body
                custom_headers smtp_server smtp_port start in
  let text := strip (reply (b ("AUTH PLAIN" +:+ CRLF))) in
  fst call = Ok (false,
                 if contains "501" text then 1%Z
                 else if contains "550" text then 2%Z
                 else 0%Z)
  /\ log (snd call) = [Connect smtp_server smtp_port;
                       Write (b ("EHLO localhost" +:+ CRLF));
                       Write (b ("AUTH PLAIN" +:+ CRLF))].
Proof.
  intros _ _ _ Hg Hehlo_ok Hbad H502 Hs Hr call text; subst call text.
  assert (Hrun :
    SmtpUtils.session (replying g reply) sender_address sender_password
      recipient_addresses
      (SmtpUtils.email_content date sender_address recipient_addresses
         email_subject email_body custom_headers)
      smtp_server smtp_port start
    = (Raise (SMTPClientError ("Error del servidor: "
                               +:+ strip (reply (b ("AUTH PLAIN" +:+ CRLF))))),
       {| email_sent := false; error_type := 0; inbox := [];
          log := [Connect smtp_server smtp_port;
                  Write (b ("EHLO localhost" +:+ CRLF));
                  Write (b ("AUTH PLAIN" +:+ CRLF))];
          broken := false |})).
  { unfold SmtpUtils.session.
    rewrite (bind_ok (open_connection (replying g reply) smtp_server smtp_port)
               _ start _ tt eq_refl).
    assert (Hehlo : SmtpUtils.ehlo (replying g reply)
                      {| email_sent := false; error_type := 0; inbox := [Text g];
                         log := [Connect smtp_server smtp_port]; broken := false |}
                    = (Ok tt, {| email_sent := false; error_type := 0; inbox := [];
                                 log := [Connect smtp_server smtp_port;
                                         Write (b ("EHLO localhost" +:+ CRLF))];
                                 broken := false |})).
    { unfold SmtpUtils.ehlo.
      pose proof (read_server_response_text g []
                    {| email_sent := false; error_type := 0; inbox := [Text g];
                       log := [Connect smtp_server smtp_port]; broken := false |}
                    eq_refl) as Hread.
      rewrite Hg in Hread. simpl in Hread.
      rewrite (bind_ok _ _ _ _ _ Hread).
      pose proof (read_server_response_text
                    (reply (b ("EHLO localhost" +:+ CRLF))) []
                    {| email_sent := false; error_type := 0;
                       inbox := [Text (reply (b ("EHLO localhost" +:+ CRLF)))];
                       log := [Connect smtp_server smtp_port;
                               Write (b ("EHLO localhost" +:+ CRLF))];
                       broken := false |}
                    eq_refl) as Hread2.
      rewrite Hehlo_ok in Hread2.
      cbn [email_sent error_type inbox log broken] in Hread2.
      unfold bind at 1 2. unfold writer_write, writer_drain.
      cbn [email_sent error_type inbox log broken respond replying app].
      exact (bind_ok _ _ _ _ _ Hread2). }
    rewrite (bind_ok _ _ _ _ _ Hehlo).
    apply bind_raise.
    exact (authenticate_refused (replying g reply) sender_address sender_password
             {| email_sent := false; error_type := 0; inbox := [];
                log := [Connect smtp_server smtp_port;
                        Write (b ("EHLO localhost" +:+ CRLF))];
                broken := false |}
             {| email_sent := false; error_type := 0;
                inbox := [Text (reply (b ("AUTH PLAIN" +:+ CRLF)))];
                log := [Connect smtp_server smtp_port;
                        Write (b ("EHLO localhost" +:+ CRLF));
                        Write (b ("AUTH PLAIN" +:+ CRLF))];
                broken := false |}
             (reply (b ("AUTH PLAIN" +:+ CRLF))) []
             eq_refl eq_refl Hbad H502). }
  destruct (send_email_session_protocol_error (replying g reply) date sender_address
              sender_password recipient_addresses email_subject email_body
              custom_headers smtp_server smtp_port Hs Hr _ _ Hrun) as [E L].
  rewrite E, L. cbn [email_sent error_type inbox log broken Z.eqb].
  rewrite !contains_server_error. split; reflexivity.
Qed.

Lemma auth_refusal_ends_session_witness :
  fst (SmtpUtils.send_email (replying ("220 ready" +:+ CRLF) auth_rejected_reply)
         some_date "a@b.com" "secret" ["c@d.com"] "Hi" "Hello" []
         "127.0.0.1" 2525 start) = Ok (false, 0%Z)
  /\ log (snd (SmtpUtils.send_email
                 (replying ("220 ready" +:+ CRLF) auth_rejected_reply)
                 some_date "a@b.com" "secret" ["c@d.com"] "Hi" "Hello" []
                 "127.0.0.1" 2525 start))
     = [Connect "127.0.0.1" 2525;
        Write (b ("EHLO localhost" +:+ CRLF));
        Write (b ("AUTH PLAIN" +:+ CRLF))].
Proof.
  apply (auth_refusal_ends_session ("220 ready" +:+ CRLF) auth_rejected_reply
           some_date "a@b.com" "secret" ["c@d.com"] "Hi" "Hello" []
           "127.0.0.1" 2525%Z).
  - unfold one_read. vm_compute. lia.
  - unfold one_read. vm_compute. lia.
  - unfold one_read. vm_compute. lia.
  - reflexivity.
  - reflexivity.
  - reflexivity.
  - reflexivity.
  - reflexivity.
  - repeat constructor.
Defined.

(** ** The content of the message *)

Lemma join_terminated (l : string) (ls : list string) :
  join CRLF (l :: ls) +:+ CRLF = terminated_lines (l :: ls).
Proof.
  revert l. induction ls as [|l' ls IH]; intros l.
  - cbn [join terminated_lines]. now rewrite sapp_nil_r.
  - change (join CRLF (l :: l' :: ls)) with (l +:+ CRLF +:+ join CRLF (l' :: ls)).
    rewrite !sapp_assoc, IH. reflexivity.
Qed.

(** X10: the message [send_email] builds is the lines [From] (the sender),
    [To] (the recipients, separated by a comma and a space), [Subject] and
    [Date], then one line [name: value] for each custom header in the order
    of the dictionary, every line ended by CRLF; then an empty line; then
    the body, unchanged. *)
Theorem email_content_layout (date sender_address : string)
    (recipient_addresses : list string) (email_subject email_body : string)
    (custom_headers : list (string * string)) :
  SmtpUtils.email_content date sender_address recipient_addresses
    email_subject email_body custom_headers
  = terminated_lines
      (["From: " +:+ sender_address;
        "To: " +:+ join ", " recipient_addresses;
        "Subject: " +:+ email_subject;
        "Date: " +:+ date]
       ++ map (fun hv => fst hv +:+ ": " +:+ snd hv) custom_headers)
    +:+ CRLF +:+ email_body.
Proof.
  unfold SmtpUtils.email_content, SmtpUtils.header_lines.
  rewrite <- sapp_assoc. f_equal.
  change (["From: " +:+ sender_address; "To: " +:+ join ", " recipient_addresses;
           "Subject: " +:+ email_subject; "Date: " +:+ date]
          ++ map (fun hv => fst hv +:+ ": " +:+ snd hv) custom_headers)
    with (("From: " +:+ sender_address)
          :: ["To: " +:+ join ", " recipient_addresses;
              "Subject: " +:+ email_subject; "Date: " +:+ date]
             ++ map (fun hv => fst hv +:+ ": " +:+ snd hv) custom_headers).
  apply join_terminated.
Qed.

(** ** The server has no data mode *)

Lemma decode_encode_cons (c : ascii) (s : string) :
  decode (encode (String c s)) = String c <$> decode (encode s).
Proof. destruct c as [[] [] [] [] [] [] [] []]; reflexivity. Qed.

Lemma decode_encode (s : string) : decode (encode s) = Some s.
Proof.
  induction s as [|c s IH]; [reflexivity |].
  now rewrite decode_encode_cons, IH.
Qed.

Lemma encode_app (s t : string) : encode (s +:+ t) = encode s ++ encode t.
Proof.
  induction s as [|c s IH]; [reflexivity |].
  rewrite sapp_cons. cbn [encode]. rewrite IH.
  destruct (ord c <? 128)%N; reflexivity.
Qed.

Lemma email_content_from (date sender_address : string)
    (recipient_addresses : list string) (email_subject email_body : string)
    (custom_headers : list (string * string)) :
  exists rest,
    SmtpUtils.email_content date sender_address recipient_addresses
      email_subject email_body custom_headers
    = "From: " +:+ rest.
Proof.
  unfold SmtpUtils.email_content.
  eexists. cbn [app join]. rewrite !sapp_assoc. reflexivity.
Qed.

(** X11: [handle_client] has no state for the message data: the message
    [send_email] writes after [DATA] (for any sender, recipients, subject,
    body and headers), received in one piece of at most 1024 bytes, is read
    by the server as one more command, and, since it begins with [From: ],
    answered with [502 Command not implemented]. *)
Theorem server_takes_content_for_command (date sender_address : string)
    (recipient_addresses : list string) (email_subject email_body : string)
    (custom_headers : list (string * string)) :
  let data :=
    encode (SmtpUtils.email_content date sender_address recipient_addresses
              email_subject email_body custom_headers)
    ++ b (CRLF +:+ "." +:+ CRLF) in
  (length data <= 1024)%nat ->
  respond SmtpServer.handle_client data
  = Some [SmtpServer.received
            (encode (SmtpServer.json_dumps
                       [("status_code", SmtpServer.JInt 502);
                        ("message", SmtpServer.JStr "Command not implemented")])
             ++ b CRLF)].
Proof.
  intros data _; subst data.
  destruct (email_content_from date sender_address recipient_addresses
              email_subject email_body custom_headers) as (rest & ->).
  change (b (CRLF +:+ "." +:+ CRLF)) with (encode (CRLF +:+ "." +:+ CRLF)).
  rewrite <- encode_app.
  unfold SmtpServer.handle_client. cbn [respond].
  rewrite decode_encode.
  rewrite sapp_assoc, !sapp_cons, sapp_nil_l.
  reflexivity.
Qed.

Lemma server_takes_content_for_command_witness :
  respond SmtpServer.handle_client
    (encode (SmtpUtils.email_content some_date "a@b.com" ["c@d.com"] "Hi" "Hello" [])
     ++ b (CRLF +:+ "." +:+ CRLF))
  = Some [SmtpServer.received
            (encode (SmtpServer.json_dumps
                       [("status_code", SmtpServer.JInt 502);
                        ("message", SmtpServer.JStr "Command not implemented")])
             ++ b CRLF)].
Proof.
  apply (server_takes_content_for_command some_date "a@b.com" ["c@d.com"]
           "Hi" "Hello" []).
  vm_compute. lia.
Defined.

(** ** The answers of the simulated client *)

(** X12: [main] of [smtp_client.py], given a sender and an array of
    recipients of any scalar values, prints one of three answers: 250 when
    the sender and every recipient are accepted, 501 [Invalid sender
    address] when the sender is not, 550 [Invalid recipient address]
    otherwise; the entries 0 and 3 of its tables and the answer 500 are
    never used. *)
Theorem simulated_main_answers (sender_address sender_password : pyval)
    (recipient_addresses : list pyval) (email_subject email_body : string)
    (custom_headers : list (string * string)) (smtp_server : string) (smtp_port : Z) :
  exists (result : bool) (error_type : Z),
    SmtpClient.send_email sender_address sender_password recipient_addresses
      email_subject email_body custom_headers smtp_server smtp_port
    = Ok (result, error_type)
    /\ SmtpClient.output result error_type
       = if accepted sender_address
         then if forallb accepted recipient_addresses
              then (250%Z, "Message accepted for delivery")
              else (550%Z, "Invalid recipient address")
         else (501%Z, "Invalid sender address").
Proof.
  unfold SmtpClient.send_email.
  rewrite client_validate_accepted, client_recipients_validate.
  destruct (accepted sender_address) eqn:Ha.
  - rewrite (accepted_truthy _ Ha). simpl negb. cbv iota.
    destruct (forallb accepted recipient_addresses);
      do 2 eexists; split; reflexivity.
  - destruct (truthy sender_address); do 2 eexists; split; reflexivity.
Qed.

(** ** A peer that accepts every step, and one that cannot be reached *)

Lemma compliant_exchange {A} (g : string) (reply : bytes -> string) (data : bytes)
    (k : string -> M A) (s : bool) (e : Z) (l : list event) :
  SmtpUtils.status_ok (strip (reply data)) = true ->
  (writer_write (replying g reply) data ;;
   writer_drain ;;
   r <- SmtpUtils.read_server_response ;;
   k r)
    {| email_sent := s; error_type := e; inbox := []; log := l; broken := false |}
  = k (strip (reply data))
      {| email_sent := s; error_type := e; inbox := [];
         log := l ++ [Write data]; broken := false |}.
Proof.
  intros Hok.
  pose proof (read_server_response_text (reply data) []
                {| email_sent := s; error_type := e; inbox := [Text (reply data)];
                   log := l ++ [Write data]; broken := false |} eq_refl) as Hread.
  rewrite Hok in Hread. simpl in Hread.
  unfold bind at 1 2. unfold writer_write, writer_drain. simpl.
  exact (bind_ok _ _ _ _ _ Hread).
Qed.

Lemma compliant_authenticate (g : string) (reply : bytes -> string)
    (sender_address sender_password : string) (s : bool) (e : Z) (l : list event) :
  (forall data, SmtpUtils.status_ok (strip (reply data)) = true) ->
  SmtpUtils.authenticate (replying g reply) sender_address sender_password
    {| email_sent := s; error_type := e; inbox := []; log := l; broken := false |}
  = (Ok tt,
     {| email_sent := s; error_type := e; inbox := [];
        log := l ++ Write (b ("AUTH PLAIN" +:+ CRLF))
                 :: (if startswith (strip (reply (b ("AUTH PLAIN" +:+ CRLF)))) "334"
                     then [Write (credential_line sender_address sender_password)]
                     else []);
        broken := false |}).
Proof.
  intros Hok. unfold SmtpUtils.authenticate, try_except.
  rewrite (compliant_exchange g reply _ _ s e l (Hok _)).
  destruct (startswith (strip (reply (b ("AUTH PLAIN" +:+ CRLF)))) "334").
  - cbv zeta.
    rewrite (compliant_exchange g reply _ _ s e _ (Hok _)).
    unfold ret, credential_line. now rewrite <- app_assoc.
  - reflexivity.
Qed.

(** X13: against a peer that answers the greeting and every write with a
    2xx/3xx line, each line within the 1024 bytes of one read,
    [send_email] with valid addresses returns [(True, 0)],
    having written the complete sequence of commands once, in order; the
    credential line is part of it exactly when the answer to [AUTH PLAIN]
    begins with [334]. *)
Theorem compliant_peer_delivers (g : string) (reply : bytes -> string)
    (date : string) (sender_address sender_password : string)
    (recipient_addresses : list string) (email_subject email_body : string)
    (custom_headers : list (string * string))
    (smtp_server : string) (smtp_port : Z) :
  one_read g ->
  (forall data, one_read (reply data)) ->
  SmtpUtils.status_ok (strip g) = true ->
  (forall data, SmtpUtils.status_ok (strip (reply data)) = true) ->
  valid sender_address ->
  Forall valid recipient_addresses ->
  let call := SmtpUtils.send_email (replying g reply) date sender_address
                sender_password recipient_addresses email_subject email_body
                custom_headers smtp_server smtp_port start in
  fst call = Ok (true, 0%Z)
  /\ log (snd call)
     = command_script (startswith (strip (reply (b ("AUTH PLAIN" +:+ CRLF)))) "334")
         sender_address sender_password recipient_addresses
         (SmtpUtils.email_content date sender_address recipient_addresses
            email_subject email_body custom_headers)
         smtp_server smtp_port.
Proof.
  intros _ _ Hg Hok Hs Hr call; subst call.
  assert (Hok' : forall data, data <> b ("AUTH PLAIN" +:+ CRLF) ->
                              SmtpUtils.status_ok (strip (reply data)) = true)
    by (intros data _; apply Hok).
  assert (Hrun :
    SmtpUtils.session (replying g reply) sender_address sender_password
      recipient_addresses
      (SmtpUtils.email_content date sender_address recipient_addresses
         email_subject email_body custom_headers)
      smtp_server smtp_port start
    = (Ok tt,
       {| email_sent := true; error_type := 0; inbox := [];
          log := command_script
                   (startswith (strip (reply (b ("AUTH PLAIN" +:+ CRLF)))) "334")
                   sender_address sender_password recipient_addresses
                   (SmtpUtils.email_content date sender_address recipient_addresses
                      email_subject email_body custom_headers)
                   smtp_server smtp_port;
          broken := false |})).
  { unfold SmtpUtils.session.
    rewrite (bind_ok (open_connection (replying g reply) smtp_server smtp_port)
               _ start _ tt eq_refl).
    assert (Hehlo : SmtpUtils.ehlo (replying g reply)
                      {| email_sent := false; error_type := 0; inbox := [Text g];
                         log := [Connect smtp_server smtp_port]; broken := false |}
                    = (Ok tt, {| email_sent := false; error_type := 0; inbox := [];
                                 log := [Connect smtp_server smtp_port;
                                         Write (b ("EHLO localhost" +:+ CRLF))];
                                 broken := false |})).
    { unfold SmtpUtils.ehlo.
      pose proof (read_server_response_text g []
                    {| email_sent := false; error_type := 0; inbox := [Text g];
                       log := [Connect smtp_server smtp_port]; broken := false |}
                    eq_refl) as Hread.
      rewrite Hg in Hread. simpl in Hread.
      rewrite (bind_ok _ _ _ _ _ Hread).
      now rewrite (compliant_exchange g reply _ _ _ _ _ (Hok _)). }
    rewrite (bind_ok _ _ _ _ _ Hehlo).
    rewrite (bind_ok _ _ _ _ _
               (compliant_authenticate g reply sender_address sender_password
                  _ _ _ Hok)).
    rewrite (bind_ok _ _ _ _ _ (replying_mail_from g reply Hok' sender_address _ _ _)).
    rewrite (bind_ok _ _ _ _ _
               (replying_rcpt_loop g reply Hok' recipient_addresses _ _ _)).
    rewrite (bind_ok _ _ _ _ _ (replying_send_data g reply Hok' _ _ _ _)).
    unfold set_email_sent. cbn [email_sent error_type inbox log broken].
    unfold command_script.
    destruct (startswith (strip (reply (b ("AUTH PLAIN" +:+ CRLF)))) "334");
      now rewrite <- !app_assoc. }
  rewrite (send_email_session_ok (replying g reply) date sender_address
             sender_password recipient_addresses email_subject email_body
             custom_headers smtp_server smtp_port Hs Hr _ Hrun).
  split; reflexivity.
Qed.

Lemma compliant_peer_delivers_witness :
  fst (SmtpUtils.send_email (replying ("220 ready" +:+ CRLF) auth_accepting_reply)
         some_date "a@b.com" "secret" ["c@d.com"] "Hi" "Hello" []
         "127.0.0.1" 2525 start) = Ok (true, 0%Z)
  /\ log (snd (SmtpUtils.send_email
                 (replying ("220 ready" +:+ CRLF) auth_accepting_reply)
                 some_date "a@b.com" "secret" ["c@d.com"] "Hi" "Hello" []
                 "127.0.0.1" 2525 start))
     = command_script true "a@b.com" "secret" ["c@d.com"]
         (SmtpUtils.email_content some_date "a@b.com" ["c@d.com"] "Hi" "Hello" [])
         "127.0.0.1" 2525.
Proof.
  apply (compliant_peer_delivers ("220 ready" +:+ CRLF) auth_accepting_reply
           some_date "a@b.com" "secret" ["c@d.com"] "Hi" "Hello" []
           "127.0.0.1" 2525%Z).
  - unfold one_read. vm_compute. lia.
  - intros data. unfold one_read, auth_accepting_reply.
    destruct (String.eqb (string_of_list_byte data) ("AUTH PLAIN" +:+ CRLF));
      vm_compute; lia.
  - reflexivity.
  - intros data. unfold auth_accepting_reply.
    destruct (String.eqb (string_of_list_byte data) ("AUTH PLAIN" +:+ CRLF));
      reflexivity.
  - reflexivity.
  - repeat constructor.
Defined.

(** X14: when the connection is refused, [send_email] with valid addresses
    returns [(False, 3)]: the exception of [open_connection] is caught by
    the general handler; the connection was attempted once and nothing was
    written. *)
Theorem connection_refused (T : transport) (date : string)
    (sender_address sender_password : string) (recipient_addresses : list string)
    (email_subject email_body : string) (custom_headers : list (string * string))
    (smtp_server : string) (smtp_port : Z) :
  accepts T = false ->
  valid sender_address ->
  Forall valid recipient_addresses ->
  let call := SmtpUtils.send_email T date sender_address sender_password
                recipient_addresses email_subject email_body custom_headers
                smtp_server smtp_port start in
  fst call = Ok (false, 3%Z) /\ log (snd call) = [Connect smtp_server smtp_port].
Proof.
  intros Hacc Hs Hr call; subst call.
  assert (Hrun :
    SmtpUtils.session T sender_address sender_password recipient_addresses
      (SmtpUtils.email_content date sender_address recipient_addresses
         email_subject email_body custom_headers)
      smtp_server smtp_port start
    = (Raise (Builtin ConnectionRefusedError),
       {| email_sent := false; error_type := 0; inbox := [];
          log := [Connect smtp_server smtp_port]; broken := false |})).
  { unfold SmtpUtils.session. apply bind_raise.
    unfold open_connection. rewrite Hacc. reflexivity. }
  destruct (send_email_session_other_error T date sender_address sender_password
              recipient_addresses email_subject email_body custom_headers
              smtp_server smtp_port Hs Hr _ _ Hrun) as [E L].
  split; [rewrite E; reflexivity | rewrite L; reflexivity].
Qed.

Lemma connection_refused_witness :
  fst (SmtpUtils.send_email refuses some_date "a@b.com" "secret" ["c@d.com"]
         "Hi" "Hello" [] "127.0.0.1" 2525 start) = Ok (false, 3%Z)
  /\ log (snd (SmtpUtils.send_email refuses some_date "a@b.com" "secret" ["c@d.com"]
                 "Hi" "Hello" [] "127.0.0.1" 2525 start))
     = [Connect "127.0.0.1" 2525].
Proof.
  apply (connection_refused refuses some_date "a@b.com" "secret" ["c@d.com"]
           "Hi" "Hello" [] "127.0.0.1" 2525%Z eq_refl).
  - reflexivity.
  - repeat constructor.
Defined.
